(** * Retrieval, rerank, command extraction and formatting of the Ubuntu
      support chatbot

    The repository ships the same decision pipeline twice: the command-line
    loop of [src/chat.py] and the Streamlit page of [app.py].  Both are
    embedded here, the first in [Module Chat], the second in [Module App];
    code that is textually the same in the two files is written once.

    The program is embedded twice.

    The first embedding reads a text as a byte string and a score as a
    rational.
    - Python [str] values are [string]s.  Character classes ([str.lower],
      [str.strip], the regex classes [\w] and [\s]) follow Python on the
      code points 0..127; the texts of this embedding are ASCII texts.
    - Python [float] scores are rationals [Q] with exact arithmetic; the
      literals [0.25], [1.10], [-999.0] are the decimal rationals they
      denote.
    - The dictionaries built by [search] are records; the two keys that
      [pick_best] adds in place give the record [scored].
    - The FAISS index, the metadata and the sentence encoder are one
      function [search] from the query to the candidate list.
    The properties of the program on its own literals and on the shape
    of its results are stated on it.

    The second embedding, [Module Py], reads the same program over
    Python's own values: a [str] is a sequence of Unicode code points and
    a [float] is an IEEE 754 double.  White space is the set that
    [str.isspace] accepts; the alphanumeric and lowercase tables above
    U+007F, which belong to the interpreter, are parameters.  The
    properties that depend on what a letter, a white space or a sum is
    are stated on it.

    The tools that build the corpus follow: the assembly of the results
    in [search] ([Module Retrieval]), the cleaning and pairing of
    src/preprocess.py ([Module Preprocess]) and the tests of
    src/filter_pairs.py ([Module FilterPairs]); of the pandas tables only
    the work on one cell, one row or one dialogue is embedded. *)

From Stdlib Require Import Ascii QArith Sorted Lqa SpecFloat.
From Stdlib Require PrimFloat FloatOps.
From stdpp Require Import gmap strings list.

Local Open Scope Q_scope.

(** ** Python string operations *)

Module PyStr.

Definition code (c : ascii) : nat := nat_of_ascii c.

Definition between (lo hi : nat) (c : ascii) : bool :=
  (lo <=? code c)%nat && (code c <=? hi)%nat.

Definition is_upper (c : ascii) : bool := between 65 90 c.
Definition is_lower (c : ascii) : bool := between 97 122 c.
Definition is_digit (c : ascii) : bool := between 48 57 c.

(** [str.isspace] on ASCII: TAB LF VT FF CR, the separators FS GS RS US,
    and the blank. *)
Definition is_space (c : ascii) : bool :=
  between 9 13 c || between 28 31 c || (code c =? 32)%nat.

(** The regex class [\w] on ASCII. *)
Definition is_word (c : ascii) : bool :=
  is_digit c || is_upper c || is_lower c || (code c =? 95)%nat.

Definition lower_char (c : ascii) : ascii :=
  if is_upper c then ascii_of_nat (code c + 32) else c.

(** [s.lower()] *)
Fixpoint lower (s : string) : string :=
  match s with
  | EmptyString => EmptyString
  | String c s' => String (lower_char c) (lower s')
  end.

Definition is_empty (s : string) : bool :=
  match s with EmptyString => true | String _ _ => false end.

Fixpoint lstrip (s : string) : string :=
  match s with
  | EmptyString => EmptyString
  | String c s' => if is_space c then lstrip s' else s
  end.

Fixpoint rstrip (s : string) : string :=
  match s with
  | EmptyString => EmptyString
  | String c s' =>
      let r := rstrip s' in
      if is_space c && is_empty r then EmptyString else String c r
  end.

(** [s.strip()] *)
Definition strip (s : string) : string := rstrip (lstrip s).

(** [s.startswith(p)] *)
Fixpoint startswith (p s : string) : bool :=
  match p, s with
  | EmptyString, _ => true
  | String a p', String b s' => bool_decide (a = b) && startswith p' s'
  | String _ _, EmptyString => false
  end.

(** [needle in s] *)
Fixpoint contains (needle s : string) : bool :=
  startswith needle s ||
  match s with
  | EmptyString => false
  | String _ s' => contains needle s'
  end.

(** [len(s)] *)
Fixpoint len (s : string) : nat :=
  match s with
  | EmptyString => 0
  | String _ s' => S (len s')
  end.

(** [sep.join(l)] *)
Fixpoint join (sep : string) (l : list string) : string :=
  match l with
  | [] => EmptyString
  | [x] => x
  | x :: l' => x +:+ sep +:+ join sep l'
  end.

(** Every character of [s] is white space: [s.strip()] is empty. *)
Fixpoint blank (s : string) : bool :=
  match s with
  | EmptyString => true
  | String c s' => is_space c && blank s'
  end.

(** [s] starts with a character that is not white space. *)
Definition first_nonspace (s : string) : bool :=
  match s with
  | EmptyString => false
  | String c _ => negb (is_space c)
  end.

(** [s] ends with a character that is not white space. *)
Fixpoint last_nonspace (s : string) : bool :=
  match s with
  | EmptyString => false
  | String c s' => if is_empty s' then negb (is_space c) else last_nonspace s'
  end.

End PyStr.

(** ** The fragment of Python's [re] that the program uses

    Patterns are syntax trees; the matcher is the backtracking matcher of
    [re], written with a continuation.  [prev] is the character before the
    current position ([None] at the start of the text): it decides [\b]
    and [^]. *)

Module Re.
Import PyStr.

Inductive cclass := CWord | CSpace.

Definition in_class (cl : cclass) (c : ascii) : bool :=
  match cl with CWord => is_word c | CSpace => is_space c end.

Inductive regex :=
| RLit (s : string)              (* literal text *)
| RPlus (cl : cclass)            (* [\w+], [\s+] *)
| RStar (cl : cclass)            (* [\s*] *)
| RBound                         (* [\b] *)
| RBol                           (* [^] *)
| RSeq (r1 r2 : regex)
| RAlt (r1 r2 : regex).

Definition cont := option ascii -> string -> option string.

Definition char_eq (ignorecase : bool) (a b : ascii) : bool :=
  if ignorecase then bool_decide (lower_char a = lower_char b)
  else bool_decide (a = b).

Fixpoint match_lit (ic : bool) (l : string) (prev : option ascii)
    (s : string) (k : cont) : option string :=
  match l with
  | EmptyString => k prev s
  | String a l' =>
      match s with
      | String b s' =>
          if char_eq ic a b then match_lit ic l' (Some b) s' k else None
      | EmptyString => None
      end
  end.

(** Greedy repetition of a class: take the longest run first and give
    characters back while the continuation fails. *)
Fixpoint rep (cl : cclass) (k : cont) (prev : option ascii)
    (s : string) : option string :=
  match s with
  | String a s' =>
      if in_class cl a then
        match rep cl k (Some a) s' with
        | Some rest => Some rest
        | None => k prev s
        end
      else k prev s
  | EmptyString => k prev s
  end.

Definition word_before (prev : option ascii) : bool :=
  match prev with Some c => is_word c | None => false end.

Definition word_here (s : string) : bool :=
  match s with String c _ => is_word c | EmptyString => false end.

Fixpoint rmatch (ic : bool) (r : regex) (prev : option ascii)
    (s : string) (k : cont) : option string :=
  match r with
  | RLit l => match_lit ic l prev s k
  | RPlus cl =>
      match s with
      | String a s' => if in_class cl a then rep cl k (Some a) s' else None
      | EmptyString => None
      end
  | RStar cl => rep cl k prev s
  | RBound => if xorb (word_before prev) (word_here s) then k prev s else None
  | RBol => match prev with None => k prev s | Some _ => None end
  | RSeq r1 r2 => rmatch ic r1 prev s (fun p' s' => rmatch ic r2 p' s' k)
  | RAlt r1 r2 =>
      match rmatch ic r1 prev s k with
      | Some rest => Some rest
      | None => rmatch ic r2 prev s k
      end
  end.

(** A match of [r] that starts at the current position; the result is the
    text after the match. *)
Definition match_at (ic : bool) (r : regex) (prev : option ascii)
    (s : string) : option string :=
  rmatch ic r prev s (fun _ rest => Some rest).

Fixpoint search_from (ic : bool) (r : regex) (prev : option ascii)
    (s : string) : bool :=
  match match_at ic r prev s with
  | Some _ => true
  | None =>
      match s with
      | String a s' => search_from ic r (Some a) s'
      | EmptyString => false
      end
  end.

(** [re.search(r, s)] as a truth value. *)
Definition search (r : regex) (s : string) : bool :=
  search_from false r None s.

(** Number of characters of [s] consumed by a match that left [rest]. *)
Definition consumed (s rest : string) : nat := len s - len rest.

(** [re.split(r, s)] for a pattern without groups.  [skip] counts the
    characters of the current delimiter still to be dropped.  A match of
    length zero is passed over (the program's delimiter cannot match the
    empty text). *)
Fixpoint split_from (ic : bool) (r : regex) (prev : option ascii)
    (s : string) (skip : nat) : list string :=
  match s with
  | EmptyString => [EmptyString]
  | String a s' =>
      match skip with
      | S n => split_from ic r (Some a) s' n
      | O =>
          let keep :=
            match split_from ic r (Some a) s' 0 with
            | p :: ps => String a p :: ps
            | [] => [String a EmptyString]
            end in
          match match_at ic r prev s with
          | Some rest =>
              match consumed s rest with
              | O => keep
              | S n => EmptyString :: split_from ic r (Some a) s' n
              end
          | None => keep
          end
      end
  end.

Definition split (r : regex) (s : string) : list string :=
  split_from false r None s 0.

(** [re.sub(r, "", s, flags)]: every match is deleted. *)
Fixpoint delete_from (ic : bool) (r : regex) (prev : option ascii)
    (s : string) (skip : nat) : string :=
  match s with
  | EmptyString => EmptyString
  | String a s' =>
      match skip with
      | S n => delete_from ic r (Some a) s' n
      | O =>
          match match_at ic r prev s with
          | Some rest =>
              match consumed s rest with
              | O => String a (delete_from ic r (Some a) s' 0)
              | S n => delete_from ic r (Some a) s' n
              end
          | None => String a (delete_from ic r (Some a) s' 0)
          end
      end
  end.

Definition delete (ic : bool) (r : regex) (s : string) : string :=
  delete_from ic r None s 0.

(** [\bw\b] *)
Definition bounded (w : string) : regex :=
  RSeq RBound (RSeq (RLit w) RBound).

(** [#\w+] *)
Definition hashtag : regex := RSeq (RLit "#") (RPlus CWord).

(** The character before the position reached by reading [pre]. *)
Fixpoint prev_after (prev : option ascii) (pre : string) : option ascii :=
  match pre with
  | EmptyString => prev
  | String c pre' => prev_after (Some c) pre'
  end.

(** The word [w] stands in [s] between two word boundaries. *)
Definition occurs_bounded (w s : string) : Prop :=
  exists pre post,
    s = pre +:+ w +:+ post /\
    xorb (word_before (prev_after None pre)) (word_here w) = true /\
    xorb (word_before (prev_after None w)) (word_here post) = true.

(** [s] holds a [#] followed by a word character. *)
Definition occurs_hashtag (s : string) : Prop :=
  exists pre c post,
    s = pre +:+ String "#" (String c post) /\ is_word c = true.

(** A pattern of the veto lists: a hashtag, or lowercase text between
    word boundaries whose first and last characters are not white space. *)
Definition noise_pattern (r : regex) : Prop :=
  r = hashtag \/
  exists w, r = bounded w /\ lower w = w /\
    first_nonspace w = true /\ last_nonspace w = true.

End Re.

(** ** Scores *)

(** [x < y] on scores, as a truth value. *)
Definition Qltb (x y : Q) : bool := negb (Qle_bool y x).

(** ** Candidates *)

(** One dictionary of the list that [search] returns. *)
Record result := mkResult {
  sim : Q;
  matched_query : string;
  answer : string
}.

(** The same dictionary after [pick_best] has stored the keys ["qual"] and
    ["total"] in it. *)
Record scored := mkScored {
  hit : result;
  qual : Q;
  total : Q
}.

(** ** Properties of a ranking *)

(** [b] is the first element of [l] among those of greatest total. *)
Definition first_maximal (l : list scored) (b : scored) : Prop :=
  exists i : nat,
    l !! i = Some b /\
    (forall (j : nat) c, l !! j = Some c -> total c <= total b) /\
    (forall (j : nat) c, l !! j = Some c -> total c == total b -> (i <= j)%nat).

Definition same_total (t : Q) (c : scored) : bool := Qeq_bool (total c) t.

(** [ranked] is [l] sorted by total, greatest first, and elements of equal
    total stand in the order they have in [l]. *)
Definition stable_desc (l ranked : list scored) : Prop :=
  Permutation l ranked /\
  StronglySorted (fun a b => total b <= total a) ranked /\
  forall t, List.filter (same_total t) ranked = List.filter (same_total t) l.

(** The record keeps the invariant of the data model. *)
Definition total_invariant (quality : string -> Q) (c : scored) : Prop :=
  qual c = quality (answer (hit c)) /\ total c = sim (hit c) + qual c.

(** ** Code shared by the two surfaces *)

Definition NL : string := String (ascii_of_nat 10) EmptyString.

(** The quality scorer: [answer_quality_score] of chat.py and
    [answer_quality] of app.py are this function over their own tables. *)
Section Scorer.
Import PyStr.
Variable BAD_PATTERNS : list Re.regex.
Variable GOOD_HINTS : list string.
Variable STEP_WORDS : list string.

Definition vetoed (a : string) : bool :=
  existsb (fun pat => Re.search pat a) BAD_PATTERNS.

Definition hint_score (a : string) (score : Q) : Q :=
  fold_left (fun score w => if contains w a then score + 0.25 else score)
    GOOD_HINTS score.

Definition length_score (L : nat) (score : Q) : Q :=
  if (30 <=? L)%nat && (L <=? 350)%nat then score + 0.5
  else if (L <? 15)%nat then score - 0.5
  else if (600 <? L)%nat then score - 0.3
  else score.

Definition step_score (a : string) (score : Q) : Q :=
  if existsb (fun x => contains x a) STEP_WORDS then score + 0.3 else score.

Definition quality_score (ans : string) : Q :=
  let a := strip (lower ans) in
  if vetoed a then -2.0
  else
    let score := 0.0 in
    let score := hint_score a score in
    let score := length_score (len a) score in
    let score := step_score a score in
    score.
End Scorer.

(** The reranker, over the quality scorer of the surface. *)
Section Rerank.
Variable quality : string -> Q.

(** The body of the loop up to the comparison: the two keys are stored. *)
Definition score_result (r : result) : scored :=
  let q := quality (answer r) in
  {| hit := r; qual := q; total := sim r + q |}.

(** The loop of [pick_best]; the second component is [results] as the
    loop leaves it. *)
Fixpoint rerank_loop (results : list result) (best : option scored)
    (best_score : Q) : option scored * list scored :=
  match results with
  | [] => (best, [])
  | r :: rest =>
      let r' := score_result r in
      let '(best, best_score) :=
        if Qltb best_score (total r') then (Some r', total r')
        else (best, best_score) in
      let '(best, rest') := rerank_loop rest best best_score in
      (best, r' :: rest')
  end.

(** [sorted(results, key=lambda x: x["total"], reverse=True)].  Python's
    sort is stable, also with [reverse=True]: an element goes in front of
    the later elements whose key is not greater than its own. *)
Fixpoint insert_desc (x : scored) (l : list scored) : list scored :=
  match l with
  | [] => [x]
  | y :: l' =>
      if Qltb (total x) (total y) then y :: insert_desc x l'
      else x :: y :: l'
  end.

Definition sorted_desc (l : list scored) : list scored :=
  foldr insert_desc [] l.

Definition pick_best (results : list result)
    : option scored * list scored :=
  let '(best, results') := rerank_loop results None (-999.0) in
  (best, sorted_desc results').

(** What the loop knows after the elements [seen]: either no total has
    exceeded the sentinel, or [best] is the first maximal element. *)
Definition loop_inv (seen : list scored) (best : option scored)
    (best_score : Q) : Prop :=
  match best with
  | None =>
      best_score = -999.0 /\ forall c, c ∈ seen -> total c <= -999.0
  | Some b => best_score = total b /\ first_maximal seen b
  end.
End Rerank.

(** [c] occurs in [l] at index [j] and nowhere before. *)
Definition first_at (c : string) (j : nat) (l : list string) : Prop :=
  l !! j = Some c /\ forall j' : nat, (j' < j)%nat -> l !! j' <> Some c.

(** The strings of [out] are strings of [l], in the order in which they
    first occur in [l]. *)
Definition first_occurrence_order (l out : list string) : Prop :=
  forall (i : nat) c, out !! i = Some c ->
    exists j : nat, first_at c j l /\
      forall (i' : nat) c', (i' < i)%nat -> out !! i' = Some c' ->
        exists j' : nat, (j' < j)%nat /\ first_at c' j' l.

(** [extract_commands], the same text in chat.py and in app.py. *)
Module Extract.
Import PyStr Re.

(** [,|&&|\.\s+] *)
Definition SPLIT_RE : regex :=
  RAlt (RLit ",") (RAlt (RLit "&&") (RSeq (RLit ".") (RPlus CSpace))).

(** [^\s*run\s+] *)
Definition RUN_RE : regex :=
  RSeq RBol (RSeq (RStar CSpace) (RSeq (RLit "run") (RPlus CSpace))).

Definition cmd_keywords : list string :=
  ["sudo"; "apt-get"; "apt "; "nmcli"; "ifconfig"; "iwconfig";
   "lspci"; "lsusb"; "dmesg"; "systemctl"; "rfkill"; "netplan"].

(** The body of the loop over [parts]. *)
Definition collect_part (commands : list string) (p : string)
    : list string :=
  let p := strip p in
  if is_empty p then commands
  else
    let low := lower p in
    if existsb (fun k => contains k low) cmd_keywords then
      let p := Re.delete true RUN_RE p in
      let p :=
        if startswith "apt-get" (lower p) || startswith "apt " (lower p)
        then "sudo " +:+ p else p in
      if (5 <=? len p)%nat then commands ++ [p] else commands
    else commands.

(** [commands] as it is before the duplicates are removed. *)
Definition collect (t : string) : list string :=
  let parts := Re.split SPLIT_RE t in
  let commands := fold_left collect_part parts [] in
  if contains "reboot" (lower t) then commands ++ ["sudo reboot"]
  else commands.

(** The body of the loop that removes duplicates. *)
Definition unique_step (st : gset string * list string) (c : string)
    : gset string * list string :=
  let '(seen, unique) := st in
  if bool_decide (c ∈ seen) then (seen, unique)
  else (seen ∪ {[c]}, unique ++ [c]).

Definition unique_of (commands : list string) : list string :=
  snd (fold_left unique_step commands (∅, [])).

Definition extract_commands (text : string) : list string :=
  if is_empty text then []
  else
    let t := strip text in
    let commands := collect t in
    take 8 (unique_of commands).

(** What the loop over [commands] knows after the strings [done]. *)
Definition unique_inv (done : list string)
    (st : gset string * list string) : Prop :=
  (forall c, c ∈ st.1 <-> c ∈ st.2) /\
  (forall c, c ∈ st.2 <-> c ∈ done) /\
  NoDup st.2 /\
  first_occurrence_order done st.2.
End Extract.

(** The four lines that close every formatted answer. *)
Definition DIAGNOSTIC_LINES : list string :=
  ["- Ubuntu version: `lsb_release -a`";
   "- WiFi chipset: `lspci | grep -i net`";
   "- Network status: `nmcli dev status`";
   "- Logs: `dmesg | tail -50`"].

(** The four lines as they stand in the text of an answer. *)
Definition DIAGNOSTIC_BLOCK : string := PyStr.join NL DIAGNOSTIC_LINES.

(** The body of [format_support_answer], over the three headings in which
    the two files differ. *)
Section Format.
Import PyStr.
Variables HEAD STEP1 STEP2 STEP3 : string.

Definition format_with (best_answer : string) : string :=
  let commands := Extract.extract_commands best_answer in
  let response := [HEAD +:+ NL; STEP1; "- " +:+ strip best_answer] in
  let response :=
    match commands with
    | [] => response
    | _ :: _ =>
        response ++ [NL +:+ STEP2; "```bash"] ++ commands ++ ["```"]
    end in
  let response := response ++ [NL +:+ STEP3] ++ DIAGNOSTIC_LINES in
  join NL response.
End Format.

(** What one turn of a surface does besides answering. *)
Inductive event :=
| ESearch (query : string)
| ERerank
| EFormat.

(** ** The command-line surface: src/chat.py *)

Module Chat.
Import PyStr Re.

Definition MIN_TOTAL_SCORE : Q := 1.10.

Definition BAD_PATTERNS : list regex :=
  [hashtag;                 (* #\w+ *)
   bounded "join";          (* \bjoin\b *)
   bounded "irssi";         (* \birssi\b *)
   bounded "lol";           (* \blol\b *)
   bounded "pm me";         (* \bpm me\b *)
   bounded "google it";     (* \bgoogle it\b *)
   bounded "ask on";        (* \bask on\b *)
   bounded "wrong channel"; (* \bwrong channel\b *)
   bounded "ask in";        (* \bask in\b *)
   bounded "go to #"].      (* \bgo to #\b *)

Definition GOOD_HINTS : list string :=
  ["sudo"; "apt"; "apt-get"; "dpkg"; "systemctl"; "service"; "nmcli";
   "ifconfig"; "iwconfig"; "lspci"; "lsusb"; "modprobe"; "dmesg";
   "/etc/"; "reboot"; "restart"; "update"; "upgrade"; "install";
   "purge"; "remove"; "networkmanager"; "netplan"; "rfkill";
   "error"; "failed"; "dependency"; "dependencies"; "kernel"; "driver"].

Definition UBUNTU_INTENT_HINTS : list string :=
  ["ubuntu"; "linux"; "apt"; "apt-get"; "dpkg"; "sudo"; "kernel"; "grub";
   "wifi"; "wireless"; "network"; "nmcli"; "bluetooth"; "nvidia"; "driver";
   "install"; "update"; "upgrade"; "error"; "failed"; "package"; "terminal";
   "bash"; "permission"; "mount"; "disk"].

Definition STEP_WORDS : list string :=
  ["try"; "run"; "check"; "edit"; "open"; "type"; "command"; "reboot";
   "restart"].

Definition is_ubuntu_question (q : string) : bool :=
  let q := strip (lower q) in
  existsb (fun h => contains h q) UBUNTU_INTENT_HINTS.

Definition answer_quality_score : string -> Q :=
  quality_score BAD_PATTERNS GOOD_HINTS STEP_WORDS.

Definition pick_best : list result -> option scored * list scored :=
  pick_best answer_quality_score.

Definition extract_commands : string -> list string :=
  Extract.extract_commands.

Definition format_support_answer (user_q best_answer : string) : string :=
  format_with " Suggested fix (based on similar Ubuntu issues):"
    "1) Best next step:"
    "2) Commands to run (copy/paste):"
    "3) If it still doesn't work, reply with:"
    best_answer.

Definition SEPARATOR : string :=
  NL +:+ "============================================================" +:+ NL.

Definition OUT_OF_DOMAIN : list string :=
  [NL +:+ "ðŸ¤– I can only help with Ubuntu / Linux technical support questions.";
   "Try asking something like: 'wifi not working after update' or 'apt-get update failed'.";
   SEPARATOR].

Definition LOW_CONFIDENCE : list string :=
  [NL +:+ "ðŸ¤– Iâ€™m not confident I have a good match for this question.";
   "If this is an Ubuntu issue, please reply with:";
   "- Ubuntu version: lsb_release -a";
   "- Hardware: lspci | grep -i net";
   "- Logs: dmesg | tail -50";
   SEPARATOR].

Definition BEST_ANSWER : string := NL +:+ "ðŸ¤– Best answer:" +:+ NL.

(** What the loop has printed and what it has called so far. *)
Record world := mkWorld {
  stdout : list string;
  calls : list event
}.

Definition print (lines : list string) (w : world) : world :=
  {| stdout := stdout w ++ lines; calls := calls w |}.

Definition call (e : event) (w : world) : world :=
  {| stdout := stdout w; calls := calls w ++ [e] |}.

(** How one pass through the body of [while True] ends. *)
Inductive control :=
| Break
| Continue
| Raise (exn : string).

Section Turn.
(** [search(user_q, index, meta, model)] for the loaded assets. *)
Variable search : string -> list result.

(** The body of the loop, from the line that [input] has returned.
    [SHOW_DEBUG] is [False]: its branch is not taken. *)
Definition main_turn (line : string) (w : world) : control * world :=
  let user_q := strip line in
  if bool_decide (lower user_q = "exit") || bool_decide (lower user_q = "quit")
  then (Break, w)
  else if is_empty user_q then (Continue, w)
  else if negb (is_ubuntu_question user_q)
  then (Continue, print OUT_OF_DOMAIN w)
  else
    let results := search user_q in
    let w := call (ESearch user_q) w in
    let '(best, ranked) := pick_best results in
    let w := call ERerank w in
    match best with
    | None => (Raise "TypeError", w)
    | Some best =>
        if Qltb (total best) MIN_TOTAL_SCORE
        then (Continue, print LOW_CONFIDENCE w)
        else
          let w := call EFormat w in
          let w := print [BEST_ANSWER] w in
          let w := print [format_support_answer user_q (answer (hit best))] w in
          (Continue, print [SEPARATOR] w)
    end.

(** The loop over the lines typed; it ends at [exit], at an exception
    or with the input. *)
Fixpoint main_loop (lines : list string) (w : world) : control * world :=
  match lines with
  | [] => (Raise "EOFError", w)
  | line :: lines' =>
      match main_turn line w with
      | (Continue, w') => main_loop lines' w'
      | stop => stop
      end
  end.
End Turn.
End Chat.

(** ** The web surface: app.py *)

Module App.
Import PyStr Re.

Definition UBUNTU_INTENT_HINTS : list string :=
  ["ubuntu"; "linux"; "apt"; "apt-get"; "dpkg"; "sudo"; "kernel"; "grub";
   "wifi"; "wireless"; "network"; "nmcli"; "bluetooth"; "nvidia"; "driver";
   "install"; "update"; "upgrade"; "error"; "failed"; "package"; "terminal";
   "bash"; "permission"; "mount"; "disk"; "snap"; "repo"; "dependency"].

Definition is_ubuntu_question (q : string) : bool :=
  let q := strip (lower q) in
  existsb (fun h => contains h q) UBUNTU_INTENT_HINTS.

Definition BAD_PATTERNS : list regex :=
  [hashtag;                 (* #\w+ *)
   bounded "join";          (* \bjoin\b *)
   bounded "lol";           (* \blol\b *)
   bounded "wrong channel"; (* \bwrong channel\b *)
   bounded "ask on";        (* \bask on\b *)
   bounded "irssi"].        (* \birssi\b *)

Definition GOOD_HINTS : list string :=
  ["sudo"; "apt"; "apt-get"; "dpkg"; "systemctl"; "service"; "nmcli";
   "ifconfig"; "iwconfig"; "lspci"; "lsusb"; "dmesg";
   "reboot"; "restart"; "update"; "upgrade"; "install";
   "kernel"; "driver"; "dependency"; "failed"; "error"].

Definition STEP_WORDS : list string :=
  ["try"; "run"; "check"; "type"; "command"].

Definition answer_quality : string -> Q :=
  quality_score BAD_PATTERNS GOOD_HINTS STEP_WORDS.

Definition pick_best : list result -> option scored * list scored :=
  pick_best answer_quality.

Definition extract_commands : string -> list string :=
  Extract.extract_commands.

Definition format_support_answer (best_answer : string) : string :=
  format_with "âœ… **Suggested fix (based on similar Ubuntu issues):**"
    "**1) Best next step:**"
    "**2) Commands to run (copy/paste):**"
    "**3) If it still doesn't work, reply with:**"
    best_answer.

Definition OUT_OF_DOMAIN : string :=
  "ğŸ¤– I can only help with **Ubuntu / Linux technical support** questions."
  +:+ NL +:+ NL +:+
  "Try: `wifi not working after update` or `apt-get update failed`.".

Inductive role := user | bot.

(** [st.session_state.messages] and what the handler has called. *)
Record world := mkWorld {
  messages : list (role * string);
  calls : list event
}.

Definition append_message (m : role * string) (w : world) : world :=
  {| messages := messages w ++ [m]; calls := calls w |}.

Definition call (e : event) (w : world) : world :=
  {| messages := messages w; calls := calls w ++ [e] |}.

(** How the handler of the Send button ends. *)
Inductive control :=
| Idle                 (* the guard failed: the script goes on *)
| Rerun                (* [st.rerun()] *)
| Raise (exn : string).

Section Send.
Variable search : string -> list result.

(** The block under [if st.button("Send")], for the text [user_q] of
    the input box. *)
Definition send (user_q : string) (w : world) : control * world :=
  if is_empty (strip user_q) then (Idle, w)
  else
    let w := append_message (user, strip user_q) w in
    if negb (is_ubuntu_question user_q) then
      (Rerun, append_message (bot, OUT_OF_DOMAIN) w)
    else
      let results := search user_q in
      let w := call (ESearch user_q) w in
      let '(best, ranked) := pick_best results in
      let w := call ERerank w in
      match best with
      | None => (Raise "TypeError", w)
      | Some best =>
          let bot_msg := format_support_answer (answer (hit best)) in
          let w := call EFormat w in
          (Rerun, append_message (bot, bot_msg) w)
      end.
End Send.
End App.

(** ** The two surfaces side by side *)

Inductive surface := CommandLine | Web.

Definition BAD_PATTERNS_of (s : surface) : list Re.regex :=
  match s with
  | CommandLine => Chat.BAD_PATTERNS
  | Web => App.BAD_PATTERNS
  end.

Definition quality_of (s : surface) : string -> Q :=
  match s with
  | CommandLine => Chat.answer_quality_score
  | Web => App.answer_quality
  end.

Definition pick_best_of (s : surface)
    : list result -> option scored * list scored :=
  match s with
  | CommandLine => Chat.pick_best
  | Web => App.pick_best
  end.

Definition extract_commands_of (s : surface) : string -> list string :=
  match s with
  | CommandLine => Chat.extract_commands
  | Web => App.extract_commands
  end.

(** [format_support_answer]; app.py has no parameter [user_q]. *)
Definition format_of (s : surface) (user_q best_answer : string) : string :=
  match s with
  | CommandLine => Chat.format_support_answer user_q best_answer
  | Web => App.format_support_answer best_answer
  end.

(** ** The command of one part of an answer *)

Module ExtractPart.
Import PyStr Extract.

(** What the body of the loop of [extract_commands] makes of a part
    before it looks at the length. *)
Definition command_of (p : string) : string :=
  let p1 := Re.delete true RUN_RE (strip p) in
  if startswith "apt-get" (lower p1) || startswith "apt " (lower p1)
  then "sudo " +:+ p1 else p1.

(** The text after a leading "run" and the white space around it, in
    any letter case: what [^\s*run\s+] leaves when it matches. *)
Definition run_rest (s : string) : option string :=
  match lstrip s with
  | String r (String u (String n (String sp t))) =>
      if Re.char_eq true "r" r && Re.char_eq true "u" u
         && Re.char_eq true "n" n && is_space sp
      then Some (lstrip t) else None
  | _ => None
  end.

End ExtractPart.

(** ** Retrieval: [search] of chat.py, app.py and search.py

    The three files hold the same function; search.py names the first key
    ["score"].  The encoder and the FAISS index are the function
    [index_search], which gives the two rows [scores[0]] and [ids[0]]. *)

Module Retrieval.

(** [meta]: the dictionary that build_index.py pickles. *)
Record meta := mkMeta {
  queries : list string;
  answers : list string
}.

(** [l[i]] on a Python list; [None] is [IndexError].  A negative index
    counts from the end. *)
Definition getitem {A : Type} (l : list A) (i : Z) : option A :=
  let n := Z.of_nat (length l) in
  if (0 <=? i)%Z then l !! Z.to_nat i
  else if (- n <=? i)%Z then l !! Z.to_nat (n + i)
  else None.

(** The loop over [zip(scores[0], ids[0])]. *)
Fixpoint results_of (hits : list (Q * Z)) (m : meta) : option (list result) :=
  match hits with
  | [] => Some []
  | (sim, idx) :: hits' =>
      q ← getitem (queries m) idx;
      a ← getitem (answers m) idx;
      results ← results_of hits' m;
      Some (mkResult sim q a :: results)
  end.

(** A hit and the dictionary made of it. *)
Definition hit_result (m : meta) (h : Q * Z) (r : result) : Prop :=
  sim r = h.1 /\
  getitem (queries m) h.2 = Some (matched_query r) /\
  getitem (answers m) h.2 = Some (answer r).

Section Search.
Variable index_search : string -> nat -> list Q * list Z.
Variable m : meta.

Definition search (query : string) (top_k : nat) : option (list result) :=
  let '(scores, ids) := index_search query top_k in
  results_of (zip scores ids) m.
End Search.

End Retrieval.

(** ** [re.sub] with a replacement text *)

Module ReSub.
Import PyStr Re.

(** [re.sub(r, repl, s)] for a pattern that cannot match the empty text
    and a replacement without group references; [skip] as in
    [Re.split_from]. *)
Fixpoint sub_from (ic : bool) (r : regex) (repl : string)
    (prev : option ascii) (s : string) (skip : nat) : string :=
  match s with
  | EmptyString => EmptyString
  | String a s' =>
      match skip with
      | S n => sub_from ic r repl (Some a) s' n
      | O =>
          match match_at ic r prev s with
          | Some rest =>
              match consumed s rest with
              | O => String a (sub_from ic r repl (Some a) s' 0)
              | S n => repl +:+ sub_from ic r repl (Some a) s' n
              end
          | None => String a (sub_from ic r repl (Some a) s' 0)
          end
      end
  end.

Definition sub (r : regex) (repl s : string) : string :=
  sub_from false r repl None s 0.

(** [re.sub(r"\s+", " ", s)] *)
Definition collapse_spaces (s : string) : string :=
  sub (RPlus CSpace) " " s.

(** The same text written without the matcher: a run of white space
    gives one blank.  [in_run] says that the character before was white
    space. *)
Fixpoint squeeze (in_run : bool) (s : string) : string :=
  match s with
  | EmptyString => EmptyString
  | String a s' =>
      if is_space a then
        if in_run then squeeze true s' else String " " (squeeze true s')
      else String a (squeeze false s')
  end.

(** Every white space character of [s] is one blank between two other
    characters; [after_space] says that a blank may not come next. *)
Fixpoint single_spaced (after_space : bool) (s : string) : bool :=
  match s with
  | EmptyString => true
  | String a s' =>
      if is_space a
      then bool_decide (a = " "%char) && negb after_space && single_spaced true s'
      else single_spaced false s'
  end.

(** [s] has no white space but single blanks inside it. *)
Definition tidy (s : string) : bool :=
  single_spaced true s && (is_empty s || last_nonspace s).

End ReSub.

(** ** The corpus builder: src/preprocess.py *)

Module Preprocess.
Import PyStr.

Definition MIN_LEN_Q : nat := 8.
Definition MIN_LEN_A : nat := 8.

Definition BAD_SHORT : list string :=
  ["ok"; "okay"; "k"; "thx"; "thanks"; "ty"; "lol"; "yes"; "no"; "yep";
   "nope"].

Definition LF : ascii := ascii_of_nat 10.

(** The lazy [.*?\]]: the text after the first "]"; the dot does not
    pass a line feed. *)
Fixpoint after_bracket (s : string) : option string :=
  match s with
  | EmptyString => None
  | String c s' =>
      if bool_decide (c = "]"%char) then Some s'
      else if bool_decide (c = LF) then None
      else after_bracket s'
  end.

(** [re.sub(r"^\[.*?\]\s*", "", s)]: without the flag MULTILINE the
    pattern matches at the start of the text only. *)
Definition drop_tag (s : string) : string :=
  match s with
  | String c s' =>
      if bool_decide (c = "["%char) then
        match after_bracket s' with
        | Some rest => lstrip rest
        | None => s
        end
      else s
  | EmptyString => s
  end.

(** [clean_text]; [None] is a cell that is not a [str] (pandas gives NaN
    for an empty cell). *)
Definition clean_text (cell : option string) : string :=
  match cell with
  | None => EmptyString
  | Some s =>
      let s := strip s in
      let s := ReSub.collapse_spaces s in
      let s := drop_tag s in
      strip s
  end.

(** [c.isalnum()] on ASCII. *)
Definition is_alnum (c : ascii) : bool :=
  is_digit c || is_upper c || is_lower c.

(** [sum(c.isalnum() for c in s)] *)
Fixpoint count_alnum (s : string) : nat :=
  match s with
  | EmptyString => 0
  | String c s' => (if is_alnum c then 1 else 0) + count_alnum s'
  end.

(** [sum(c.isalnum() for c in s) / max(len(s), 1)] *)
Definition alnum_ratio (s : string) : Q :=
  inject_Z (Z.of_nat (count_alnum s))
  / inject_Z (Z.of_nat (Nat.max (len s) 1)).

Definition is_bad_utterance (s : string) : bool :=
  if is_empty s then true
  else
    let low := strip (lower s) in
    if bool_decide (low ∈ BAD_SHORT) then true
    else if (len low <? MIN_LEN_Q)%nat then true
    else if Qltb (alnum_ratio low) 0.5 then true
    else false.


End Preprocess.

(** ** The corpus filter: src/filter_pairs.py *)

Module FilterPairs.
Import PyStr.

Definition MIN_Q_LEN : nat := 15.
Definition MIN_A_LEN : nat := 15.
Definition MAX_LEN : nat := 400.

Definition TECH_HINTS : list string :=
  ["ubuntu"; "apt"; "dpkg"; "sudo"; "bash"; "terminal"; "kernel"; "grub";
   "wifi"; "network"; "drivers"; "nvidia"; "bluetooth"; "update"; "upgrade";
   "install"; "package"; "error"; "failed"; "permission"; "mount"; "disk"].

(** [normalize] on a cell that is a [str]. *)
Definition normalize (s : string) : string :=
  let s := strip s in
  ReSub.collapse_spaces s.

Definition has_tech_signal (text : string) : bool :=
  let t := lower text in
  existsb (fun w => contains w t) TECH_HINTS
  || contains "sudo " t || contains "apt " t || contains "error" t.

(** [s.count(needle)]: occurrences that do not overlap, from the left;
    [skip] counts the characters of the last occurrence still to pass. *)
Fixpoint count_from (needle s : string) (skip : nat) : nat :=
  match s with
  | EmptyString => 0
  | String _ s' =>
      match skip with
      | S n => count_from needle s' n
      | O =>
          if startswith needle s
          then S (count_from needle s' (len needle - 1))
          else count_from needle s' 0
      end
  end.

Definition count (needle s : string) : nat := count_from needle s 0.

Definition looks_like_noise (text : string) : bool :=
  let t := lower text in
  if (1 <=? count "http" t)%nat then true
  else if Qltb (Preprocess.alnum_ratio t) 0.55 then true
  else false.

(** [x.between(lo, hi)], both ends included. *)
Definition between (lo hi x : nat) : bool := (lo <=? x)%nat && (x <=? hi)%nat.

(** The masks of [main] on one row, after both cells are normalised:
    the row is still in the table before [drop_duplicates]. *)
Definition row_kept (query answer : string) : bool :=
  let query := normalize query in
  let answer := normalize answer in
  between MIN_Q_LEN MAX_LEN (len query)
  && between MIN_A_LEN MAX_LEN (len answer)
  && negb (looks_like_noise query)
  && negb (looks_like_noise answer)
  && (has_tech_signal query || has_tech_signal answer).

End FilterPairs.

(** ** The page of app.py besides the Send button *)

Module AppPage.
Import App.



End AppPage.

(** * The program over Python's own texts and numbers

    The definitions above read a text as a byte string, its letters as
    ASCII letters, and a score as a rational.  The modules of [Py] read the
    same program over Python's own values: a [str] is a sequence of code
    points, with the white space, the letters and the letter case of
    Unicode, and a [float] is an IEEE 754 double with its rounding.  The
    pattern trees, the word lists and the messages are those written
    above; a literal is decoded from the UTF-8 text of the source file. *)

(** ** The code points of a literal *)

Module Utf8.

Definition byte (c : ascii) : N := N_of_ascii c.

(** The six payload bits of a continuation byte. *)
Definition low6 (c : ascii) : N := (byte c mod 64)%N.

(** The code points of a well-formed UTF-8 text; a byte that starts no
    sequence stands for itself. *)
Fixpoint decode (s : string) : list N :=
  match s with
  | EmptyString => []
  | String a s1 =>
      let b := byte a in
      if (b <? 192)%N then b :: decode s1
      else
        match s1 with
        | EmptyString => [b]
        | String a2 s2 =>
            if (b <? 224)%N then ((b - 192) * 64 + low6 a2)%N :: decode s2
            else
              match s2 with
              | EmptyString => [b; byte a2]
              | String a3 s3 =>
                  if (b <? 240)%N
                  then ((b - 224) * 4096 + low6 a2 * 64 + low6 a3)%N
                       :: decode s3
                  else
                    match s3 with
                    | EmptyString => [b; byte a2; byte a3]
                    | String a4 s4 =>
                        ((b - 240) * 262144 + low6 a2 * 4096
                         + low6 a3 * 64 + low6 a4)%N :: decode s4
                    end
              end
        end
  end.

End Utf8.

Module Py.
Local Close Scope Q_scope.

(** ** [float]: IEEE 754 binary64 *)

Module Float.
Import PrimFloat.
Local Set Warnings "-inexact-float".

Definition float : Type := spec_float.

(** 53 bits of precision, exponents below 1024. *)
Definition prec : Z := 53%Z.
Definition emax : Z := 1024%Z.

(** [x + y], [x - y], [x / y]: the exact result rounded to the nearest
    double, ties to even. *)
Definition add : float -> float -> float := SFadd prec emax.
Definition sub : float -> float -> float := SFsub prec emax.
Definition div : float -> float -> float := SFdiv prec emax.
Definition neg : float -> float := SFopp.

(** [x < y], [x <= y], [x == y]: false as soon as one side is NaN. *)
Definition ltb : float -> float -> bool := SFltb.
Definition leb : float -> float -> bool := SFleb.
Definition eqb : float -> float -> bool := SFeqb.

Definition is_nan (x : float) : bool :=
  match x with S754_nan => true | _ => false end.

(** A decimal literal of the source is the double nearest to it. *)
Definition literal (x : PrimFloat.float) : float := FloatOps.Prim2SF x.

Definition f0_0 : float := Eval vm_compute in literal 0.0.
Definition f0_25 : float := Eval vm_compute in literal 0.25.
Definition f0_3 : float := Eval vm_compute in literal 0.3.
Definition f0_5 : float := Eval vm_compute in literal 0.5.
Definition f0_55 : float := Eval vm_compute in literal 0.55.
Definition f1_10 : float := Eval vm_compute in literal 1.10.
Definition f2_0 : float := Eval vm_compute in literal 2.0.
Definition f999_0 : float := Eval vm_compute in literal 999.0.

(** The bounds of the quality, for the statements about it. *)
Definition f6_3 : float := Eval vm_compute in literal 6.3.
Definition f8_3 : float := Eval vm_compute in literal 8.3.

(** [float(n)] for an integer that a double holds exactly; [n / d] on
    two such integers divides their doubles. *)
Definition of_Z (z : Z) : float := binary_normalize prec emax z 0 false.
Definition of_nat (n : nat) : float := of_Z (Z.of_nat n).

(** The double nearest to a decimal fraction of a few digits: its
    numerator and its denominator are doubles, and the division rounds
    their quotient. *)
Definition decimal (q : Q) : float :=
  div (of_Z (Qnum q)) (of_Z (Z.pos (Qden q))).

End Float.

(** ** [str]: sequences of code points *)

Module Str.
Local Open Scope N_scope.

Definition char : Type := N.
Definition str : Type := list char.

(** A literal of the source files. *)
Definition lit (s : string) : str := Utf8.decode s.

Definition between (lo hi c : N) : bool := (lo <=? c) && (c <=? hi).

Definition is_ascii (c : char) : bool := c <? 128.

(** Every code point of [s] is below U+0080. *)
Definition ascii_text (s : list char) : bool := forallb is_ascii s.

(** The code points U+0000 to U+007F. *)
Definition ascii_chars : list char := map N.of_nat (seq 0 128).

Definition is_upper (c : char) : bool := between 65 90 c.
Definition is_lower (c : char) : bool := between 97 122 c.
Definition is_digit (c : char) : bool := between 48 57 c.

(** [chr(c).lower()] on ASCII. *)
Definition ascii_lower (c : char) : char := if is_upper c then c + 32 else c.

(** [c.isspace()], the class [\s] of [re] and what [strip] removes: TAB
    to CR, FS to US and the blank; NEL and the no-break space; the Ogham
    space mark; EN QUAD to HAIR SPACE; the line and paragraph separators;
    the narrow no-break space, the medium mathematical space and the
    ideographic space. *)
Definition is_space (c : char) : bool :=
  between 0x09 0x0D c || between 0x1C 0x20 c
  || (c =? 0x85) || (c =? 0xA0) || (c =? 0x1680)
  || between 0x2000 0x200A c || (c =? 0x2028) || (c =? 0x2029)
  || (c =? 0x202F) || (c =? 0x205F) || (c =? 0x3000).

(** The tables of the Unicode database above U+007F, which belong to the
    interpreter and not to the repository: they are parameters of the
    model, and every statement holds for all of them. *)
Class UnicodeData := {
  (** [c.isalnum()] *)
  alnum_table : char -> bool;
  (** [c.lower()]: one to three code points *)
  lower_table : char -> str;
  (** the lowercase of [c] that [re.IGNORECASE] compares *)
  simple_lower_table : char -> char;
  (** the properties Cased and Case_Ignorable, which decide the lowercase
      of a capital sigma *)
  cased_table : char -> bool;
  case_ignorable_table : char -> bool
}.

Section WithTables.
Context `{UnicodeData}.

(** [c.isalnum()] *)
Definition isalnum (c : char) : bool :=
  if is_ascii c then is_digit c || is_upper c || is_lower c
  else alnum_table c.

(** The class [\w] of [re]. *)
Definition is_word (c : char) : bool := isalnum c || (c =? 95).

(** [chr(c).lower()] away from the capital sigma. *)
Definition lower_full (c : char) : str :=
  if is_ascii c then [ascii_lower c] else lower_table c.

Definition simple_lower (c : char) : char :=
  if is_ascii c then ascii_lower c else simple_lower_table c.

Definition cased (c : char) : bool :=
  if is_ascii c then is_upper c || is_lower c else cased_table c.

(** On ASCII: the apostrophe, the full stop, the colon, the circumflex
    and the grave accent. *)
Definition case_ignorable (c : char) : bool :=
  if is_ascii c
  then (c =? 39) || (c =? 46) || (c =? 58) || (c =? 94) || (c =? 96)
  else case_ignorable_table c.

(** The first code point of [s] that is not Case_Ignorable. *)
Fixpoint first_not_ignorable (s : str) : option char :=
  match s with
  | [] => None
  | c :: s' => if case_ignorable c then first_not_ignorable s' else Some c
  end.

(** A capital sigma is final when a cased letter stands before it and
    none after it, case-ignorable code points apart.  [before] is the
    text before the sigma, last code point first. *)
Definition final_sigma (before after : str) : bool :=
  match first_not_ignorable before with
  | Some c =>
      cased c &&
      match first_not_ignorable after with
      | Some d => negb (cased d)
      | None => true
      end
  | None => false
  end.

Fixpoint lower_from (before s : str) : str :=
  match s with
  | [] => []
  | c :: s' =>
      (if c =? 0x3A3
       then [if final_sigma before s' then 0x3C2 else 0x3C3]
       else lower_full c)
      ++ lower_from (c :: before) s'
  end.

(** [s.lower()] *)
Definition lower (s : str) : str := lower_from [] s.

End WithTables.

Definition is_empty (s : str) : bool :=
  match s with [] => true | _ :: _ => false end.

Fixpoint lstrip (s : str) : str :=
  match s with
  | [] => []
  | c :: s' => if is_space c then lstrip s' else s
  end.

Fixpoint rstrip (s : str) : str :=
  match s with
  | [] => []
  | c :: s' =>
      let r := rstrip s' in
      if is_space c && is_empty r then [] else c :: r
  end.

(** [s.strip()] *)
Definition strip (s : str) : str := rstrip (lstrip s).

(** [s.startswith(p)] *)
Fixpoint startswith (p s : str) : bool :=
  match p, s with
  | [], _ => true
  | a :: p', b :: s' => (a =? b) && startswith p' s'
  | _ :: _, [] => false
  end.

(** [needle in s] *)
Fixpoint contains (needle s : str) : bool :=
  startswith needle s ||
  match s with
  | [] => false
  | _ :: s' => contains needle s'
  end.

(** [len(s)] *)
Definition len (s : str) : nat := length s.

(** [sep.join(l)] *)
Fixpoint join (sep : str) (l : list str) : str :=
  match l with
  | [] => []
  | [x] => x
  | x :: l' => x ++ sep ++ join sep l'
  end.

(** Every code point of [s] is white space. *)
Definition blank (s : str) : bool := forallb is_space s.

Definition first_nonspace (s : str) : bool :=
  match s with
  | [] => false
  | c :: _ => negb (is_space c)
  end.

Fixpoint last_nonspace (s : str) : bool :=
  match s with
  | [] => false
  | c :: s' => if is_empty s' then negb (is_space c) else last_nonspace s'
  end.

(** [s.count(needle)]: occurrences that do not overlap, from the left;
    [skip] counts the code points of the last occurrence still to pass. *)
Fixpoint count_from (needle s : str) (skip : nat) : nat :=
  match s with
  | [] => 0%nat
  | _ :: s' =>
      match skip with
      | S n => count_from needle s' n
      | O =>
          if startswith needle s
          then S (count_from needle s' (len needle - 1))
          else count_from needle s' 0
      end
  end.

Definition count (needle s : str) : nat := count_from needle s 0.

End Str.

(** ** The matcher of [re] over code points

    The pattern trees are those of [Re]; the classes are those of
    Unicode, and with [re.IGNORECASE] a letter of the pattern matches the
    code points that have its lowercase. *)

Module Sre.
Import Str.
Import Re(cclass, CWord, CSpace, regex, RLit, RPlus, RStar, RBound, RBol,
          RSeq, RAlt).

Definition cont : Type := option char -> str -> option str.

Section Matcher.
Context `{UnicodeData}.

Definition in_class (cl : cclass) (c : char) : bool :=
  match cl with CWord => is_word c | CSpace => is_space c end.

(** [a] is the code point of the pattern, [b] the one of the text. *)
Definition char_eq (ignorecase : bool) (a b : char) : bool :=
  if ignorecase then (simple_lower b =? simple_lower a)%N else (b =? a)%N.

Fixpoint match_lit (ic : bool) (l : str) (prev : option char)
    (s : str) (k : cont) : option str :=
  match l with
  | [] => k prev s
  | a :: l' =>
      match s with
      | b :: s' =>
          if char_eq ic a b then match_lit ic l' (Some b) s' k else None
      | [] => None
      end
  end.

Fixpoint rep (cl : cclass) (k : cont) (prev : option char)
    (s : str) : option str :=
  match s with
  | a :: s' =>
      if in_class cl a then
        match rep cl k (Some a) s' with
        | Some rest => Some rest
        | None => k prev s
        end
      else k prev s
  | [] => k prev s
  end.

Definition word_before (prev : option char) : bool :=
  match prev with Some c => is_word c | None => false end.

Definition word_here (s : str) : bool :=
  match s with c :: _ => is_word c | [] => false end.

Fixpoint rmatch (ic : bool) (r : regex) (prev : option char)
    (s : str) (k : cont) : option str :=
  match r with
  | RLit l => match_lit ic (lit l) prev s k
  | RPlus cl =>
      match s with
      | a :: s' => if in_class cl a then rep cl k (Some a) s' else None
      | [] => None
      end
  | RStar cl => rep cl k prev s
  | RBound => if xorb (word_before prev) (word_here s) then k prev s else None
  | RBol => match prev with None => k prev s | Some _ => None end
  | RSeq r1 r2 => rmatch ic r1 prev s (fun p' s' => rmatch ic r2 p' s' k)
  | RAlt r1 r2 =>
      match rmatch ic r1 prev s k with
      | Some rest => Some rest
      | None => rmatch ic r2 prev s k
      end
  end.

Definition match_at (ic : bool) (r : regex) (prev : option char)
    (s : str) : option str :=
  rmatch ic r prev s (fun _ rest => Some rest).

Fixpoint search_from (ic : bool) (r : regex) (prev : option char)
    (s : str) : bool :=
  match match_at ic r prev s with
  | Some _ => true
  | None =>
      match s with
      | a :: s' => search_from ic r (Some a) s'
      | [] => false
      end
  end.

(** [re.search(r, s)] as a truth value. *)
Definition search (r : regex) (s : str) : bool :=
  search_from false r None s.

Definition consumed (s rest : str) : nat := len s - len rest.

(** [re.split(r, s)], as [Re.split_from]. *)
Fixpoint split_from (ic : bool) (r : regex) (prev : option char)
    (s : str) (skip : nat) : list str :=
  match s with
  | [] => [[]]
  | a :: s' =>
      match skip with
      | S n => split_from ic r (Some a) s' n
      | O =>
          let keep :=
            match split_from ic r (Some a) s' 0 with
            | p :: ps => (a :: p) :: ps
            | [] => [[a]]
            end in
          match match_at ic r prev s with
          | Some rest =>
              match consumed s rest with
              | O => keep
              | S n => [] :: split_from ic r (Some a) s' n
              end
          | None => keep
          end
      end
  end.

Definition split (r : regex) (s : str) : list str :=
  split_from false r None s 0.

(** [re.sub(r, repl, s, flags)], as [ReSub.sub_from]. *)
Fixpoint sub_from (ic : bool) (r : regex) (repl : str)
    (prev : option char) (s : str) (skip : nat) : str :=
  match s with
  | [] => []
  | a :: s' =>
      match skip with
      | S n => sub_from ic r repl (Some a) s' n
      | O =>
          match match_at ic r prev s with
          | Some rest =>
              match consumed s rest with
              | O => a :: sub_from ic r repl (Some a) s' 0
              | S n => repl ++ sub_from ic r repl (Some a) s' n
              end
          | None => a :: sub_from ic r repl (Some a) s' 0
          end
      end
  end.

Definition sub (ic : bool) (r : regex) (repl s : str) : str :=
  sub_from ic r repl None s 0.

(** The code point before the position reached by reading [pre]. *)
Fixpoint prev_after (prev : option char) (pre : str) : option char :=
  match pre with
  | [] => prev
  | c :: pre' => prev_after (Some c) pre'
  end.

(** The word [w] stands in [s] between two word boundaries. *)
Definition occurs_bounded (w s : str) : Prop :=
  exists pre post,
    s = pre ++ w ++ post /\
    xorb (word_before (prev_after None pre)) (word_here w) = true /\
    xorb (word_before (prev_after None w)) (word_here post) = true.

(** [s] holds a [#] followed by a word character. *)
Definition occurs_hashtag (s : str) : Prop :=
  exists pre c post, s = pre ++ 35%N :: c :: post /\ is_word c = true.

End Matcher.

(** A pattern of the veto lists: a hashtag, or lowercase ASCII text
    between word boundaries whose first and last characters are not white
    space. *)
Definition noise_pattern (r : regex) : Prop :=
  r = Re.hashtag \/
  exists w, r = Re.bounded w /\
    ascii_text (lit w) = true /\ map ascii_lower (lit w) = lit w /\
    first_nonspace (lit w) = true /\ last_nonspace (lit w) = true.

End Sre.

(** ** Candidates and rankings *)

Import Float Str.

Record result := mkResult {
  sim : float;
  matched_query : str;
  answer : str
}.

Record scored := mkScored {
  hit : result;
  qual : float;
  total : float
}.

(** [b] is the first element of [l] among those of greatest total. *)
Definition first_maximal (l : list scored) (b : scored) : Prop :=
  exists i : nat,
    l !! i = Some b /\
    (forall (j : nat) c, l !! j = Some c -> leb (total c) (total b) = true) /\
    (forall (j : nat) c, l !! j = Some c ->
       eqb (total c) (total b) = true -> i <= j).

Definition same_total (t : float) (c : scored) : bool := eqb (total c) t.

(** [ranked] is [l] sorted by total, greatest first, and elements of equal
    total stand in the order they have in [l]. *)
Definition stable_desc (l ranked : list scored) : Prop :=
  Permutation l ranked /\
  StronglySorted (fun a b => leb (total b) (total a) = true) ranked /\
  forall t, List.filter (same_total t) ranked = List.filter (same_total t) l.


(** ** The quality scorer and the reranker *)

Section Scorer.
Context `{UnicodeData}.
Variable BAD_PATTERNS : list Re.regex.
Variable GOOD_HINTS : list str.
Variable STEP_WORDS : list str.

Definition vetoed (a : str) : bool :=
  existsb (fun pat => Sre.search pat a) BAD_PATTERNS.

Definition hint_score (a : str) (score : float) : float :=
  fold_left (fun score w => if contains w a then add score f0_25 else score)
    GOOD_HINTS score.

Definition length_score (L : nat) (score : float) : float :=
  if (30 <=? L) && (L <=? 350) then add score f0_5
  else if L <? 15 then sub score f0_5
  else if 600 <? L then sub score f0_3
  else score.

Definition step_score (a : str) (score : float) : float :=
  if existsb (fun x => contains x a) STEP_WORDS then add score f0_3
  else score.

(** [score] after [k] hints: [k] additions of 0.25. *)
Definition quarters (k : nat) (score : float) : float :=
  Nat.iter k (fun score => add score f0_25) score.

(** The hints of [GOOD_HINTS] that [a] contains. *)
Definition hints_in (a : str) : list str :=
  List.filter (fun w => contains w a) GOOD_HINTS.

Definition quality_score (ans : str) : float :=
  let a := strip (lower ans) in
  if vetoed a then neg f2_0
  else
    let score := f0_0 in
    let score := hint_score a score in
    let score := length_score (len a) score in
    let score := step_score a score in
    score.
End Scorer.

Section Rerank.
Variable quality : str -> float.

Definition score_result (r : result) : scored :=
  let q := quality (answer r) in
  {| hit := r; qual := q; total := add (sim r) q |}.

(** The loop of [pick_best]: [total > best_score] is [best_score < total]. *)
Fixpoint rerank_loop (results : list result) (best : option scored)
    (best_score : float) : option scored * list scored :=
  match results with
  | [] => (best, [])
  | r :: rest =>
      let r' := score_result r in
      let '(best, best_score) :=
        if ltb best_score (total r') then (Some r', total r')
        else (best, best_score) in
      let '(best, rest') := rerank_loop rest best best_score in
      (best, r' :: rest')
  end.

(** [sorted(results, key=lambda x: x["total"], reverse=True)]: the
    stable sort by the comparison [<] of the keys, which orders them when
    none is NaN.  An element goes in front of the later elements whose key
    is not greater than its own. *)
Fixpoint insert_desc (x : scored) (l : list scored) : list scored :=
  match l with
  | [] => [x]
  | y :: l' =>
      if ltb (total x) (total y) then y :: insert_desc x l'
      else x :: y :: l'
  end.

Definition sorted_desc (l : list scored) : list scored :=
  foldr insert_desc [] l.

Definition pick_best (results : list result)
    : option scored * list scored :=
  let '(best, results') := rerank_loop results None (neg f999_0) in
  (best, sorted_desc results').

(** What the loop knows after the elements [seen]: no total has exceeded
    the sentinel, or [best] is the first of the totals above it that no
    total exceeds. *)
Definition loop_inv (seen : list scored) (best : option scored)
    (best_score : float) : Prop :=
  match best with
  | None =>
      best_score = neg f999_0 /\
      forall c, c ∈ seen -> ltb (neg f999_0) (total c) = false
  | Some b =>
      best_score = total b /\
      ltb (neg f999_0) (total b) = true /\
      exists i : nat,
        seen !! i = Some b /\
        (forall (j : nat) c, seen !! j = Some c ->
           ltb (total b) (total c) = false) /\
        (forall (j : nat) c, seen !! j = Some c -> j < i ->
           ltb (total c) (total b) = true \/ is_nan (total c) = true)
  end.
End Rerank.

(** ** [extract_commands] *)

Module Commands.
Import Sre.

Definition cmd_keywords : list str := map lit Extract.cmd_keywords.

Section WithTables.
Context `{UnicodeData}.

Definition collect_part (commands : list str) (p : str) : list str :=
  let p := strip p in
  if is_empty p then commands
  else
    let low := lower p in
    if existsb (fun k => contains k low) cmd_keywords then
      let p := Sre.sub true Extract.RUN_RE [] p in
      let p :=
        if startswith (lit "apt-get") (lower p)
           || startswith (lit "apt ") (lower p)
        then lit "sudo " ++ p else p in
      if 5 <=? len p then commands ++ [p] else commands
    else commands.

Definition collect (t : str) : list str :=
  let parts := Sre.split Extract.SPLIT_RE t in
  let commands := fold_left collect_part parts [] in
  if contains (lit "reboot") (lower t) then commands ++ [lit "sudo reboot"]
  else commands.

Definition unique_step (st : gset str * list str) (c : str)
    : gset str * list str :=
  let '(seen, unique) := st in
  if bool_decide (c ∈ seen) then (seen, unique)
  else (seen ∪ {[c]}, unique ++ [c]).

Definition unique_of (commands : list str) : list str :=
  snd (fold_left unique_step commands (∅, [])).

Definition extract_commands (text : str) : list str :=
  if is_empty text then []
  else
    let t := strip text in
    let commands := collect t in
    take 8 (unique_of commands).

End WithTables.
End Commands.

(** ** [format_support_answer] *)

Definition NL : str := [10%N].

Definition DIAGNOSTIC_LINES : list str := map lit DIAGNOSTIC_LINES.

Section Format.
Context `{UnicodeData}.
Variables HEAD STEP1 STEP2 STEP3 : string.

Definition format_with (best_answer : str) : str :=
  let commands := Commands.extract_commands best_answer in
  let response :=
    [lit HEAD ++ NL; lit STEP1; lit "- " ++ strip best_answer] in
  let response :=
    match commands with
    | [] => response
    | _ :: _ =>
        response ++ [NL ++ lit STEP2; lit "```bash"] ++ commands
        ++ [lit "```"]
    end in
  let response := response ++ [NL ++ lit STEP3] ++ DIAGNOSTIC_LINES in
  join NL response.
End Format.

Inductive event :=
| ESearch (query : str)
| ERerank
| EFormat.

(** ** src/chat.py *)

Module ChatPy.
Import Chat(control, Break, Continue, Raise).

Definition MIN_TOTAL_SCORE : float := f1_10.

Definition GOOD_HINTS : list str := map lit Chat.GOOD_HINTS.
Definition UBUNTU_INTENT_HINTS : list str := map lit Chat.UBUNTU_INTENT_HINTS.
Definition STEP_WORDS : list str := map lit Chat.STEP_WORDS.

Definition SEPARATOR : str := lit Chat.SEPARATOR.
Definition OUT_OF_DOMAIN : list str := map lit Chat.OUT_OF_DOMAIN.
Definition LOW_CONFIDENCE : list str := map lit Chat.LOW_CONFIDENCE.
Definition BEST_ANSWER : str := lit Chat.BEST_ANSWER.

Record world := mkWorld {
  stdout : list str;
  calls : list event
}.

Definition print (lines : list str) (w : world) : world :=
  {| stdout := stdout w ++ lines; calls := calls w |}.

Definition call (e : event) (w : world) : world :=
  {| stdout := stdout w; calls := calls w ++ [e] |}.

Section WithTables.
Context `{UnicodeData}.

Definition is_ubuntu_question (q : str) : bool :=
  let q := strip (lower q) in
  existsb (fun h => contains h q) UBUNTU_INTENT_HINTS.

Definition answer_quality_score : str -> float :=
  quality_score Chat.BAD_PATTERNS GOOD_HINTS STEP_WORDS.

Definition pick_best : list result -> option scored * list scored :=
  pick_best answer_quality_score.

Definition format_support_answer (user_q best_answer : str) : str :=
  format_with " Suggested fix (based on similar Ubuntu issues):"
    "1) Best next step:"
    "2) Commands to run (copy/paste):"
    "3) If it still doesn't work, reply with:"
    best_answer.

Section Turn.
Variable search : str -> list result.

(** The body of [while True], from the line that [input] has returned. *)
Definition main_turn (line : str) (w : world) : control * world :=
  let user_q := strip line in
  if bool_decide (lower user_q = lit "exit")
     || bool_decide (lower user_q = lit "quit")
  then (Break, w)
  else if is_empty user_q then (Continue, w)
  else if negb (is_ubuntu_question user_q)
  then (Continue, print OUT_OF_DOMAIN w)
  else
    let results := search user_q in
    let w := call (ESearch user_q) w in
    let '(best, ranked) := pick_best results in
    let w := call ERerank w in
    match best with
    | None => (Raise "TypeError", w)
    | Some best =>
        if ltb (total best) MIN_TOTAL_SCORE
        then (Continue, print LOW_CONFIDENCE w)
        else
          let w := call EFormat w in
          let w := print [BEST_ANSWER] w in
          let w := print [format_support_answer user_q (answer (hit best))] w in
          (Continue, print [SEPARATOR] w)
    end.
End Turn.
End WithTables.
End ChatPy.

(** ** app.py *)

Module AppPy.
Import App(role, user, bot, control, Idle, Rerun, Raise).

Definition UBUNTU_INTENT_HINTS : list str := map lit App.UBUNTU_INTENT_HINTS.
Definition GOOD_HINTS : list str := map lit App.GOOD_HINTS.
Definition STEP_WORDS : list str := map lit App.STEP_WORDS.
Definition OUT_OF_DOMAIN : str := lit App.OUT_OF_DOMAIN.

Record world := mkWorld {
  messages : list (role * str);
  calls : list event
}.

Definition append_message (m : role * str) (w : world) : world :=
  {| messages := messages w ++ [m]; calls := calls w |}.

Definition call (e : event) (w : world) : world :=
  {| messages := messages w; calls := calls w ++ [e] |}.

Section WithTables.
Context `{UnicodeData}.

Definition is_ubuntu_question (q : str) : bool :=
  let q := strip (lower q) in
  existsb (fun h => contains h q) UBUNTU_INTENT_HINTS.

Definition answer_quality : str -> float :=
  quality_score App.BAD_PATTERNS GOOD_HINTS STEP_WORDS.

Definition pick_best : list result -> option scored * list scored :=
  pick_best answer_quality.

Definition format_support_answer (best_answer : str) : str :=
  format_with "âœ… **Suggested fix (based on similar Ubuntu issues):**"
    "**1) Best next step:**"
    "**2) Commands to run (copy/paste):**"
    "**3) If it still doesn't work, reply with:**"
    best_answer.

Section Send.
Variable search : str -> list result.

(** The block under [if st.button("Send")]. *)
Definition send (user_q : str) (w : world) : control * world :=
  if is_empty (strip user_q) then (Idle, w)
  else
    let w := append_message (user, strip user_q) w in
    if negb (is_ubuntu_question user_q) then
      (Rerun, append_message (bot, OUT_OF_DOMAIN) w)
    else
      let results := search user_q in
      let w := call (ESearch user_q) w in
      let '(best, ranked) := pick_best results in
      let w := call ERerank w in
      match best with
      | None => (Raise "TypeError", w)
      | Some best =>
          let bot_msg := format_support_answer (answer (hit best)) in
          let w := call EFormat w in
          (Rerun, append_message (bot, bot_msg) w)
      end.
End Send.
End WithTables.
End AppPy.

(** ** The two surfaces side by side *)

Section Surfaces.
Context `{UnicodeData}.

Definition quality_of (s : surface) : str -> float :=
  match s with
  | CommandLine => ChatPy.answer_quality_score
  | Web => AppPy.answer_quality
  end.

Definition pick_best_of (s : surface)
    : list result -> option scored * list scored :=
  match s with
  | CommandLine => ChatPy.pick_best
  | Web => AppPy.pick_best
  end.


(** The greatest value that the quality takes on the surface. *)
Definition max_quality (s : surface) : float :=
  match s with CommandLine => f8_3 | Web => f6_3 end.

End Surfaces.

(** ** src/filter_pairs.py and src/preprocess.py *)

Module Corpus.

Definition BAD_SHORT : list str := map lit Preprocess.BAD_SHORT.

(** Every white space code point of [s] is one blank between two other
    code points; [after_space] says that a blank may not come next. *)
Fixpoint single_spaced (after_space : bool) (s : str) : bool :=
  match s with
  | [] => true
  | a :: s' =>
      if is_space a
      then (a =? 32)%N && negb after_space && single_spaced true s'
      else single_spaced false s'
  end.

(** [s] has no white space but single blanks inside it. *)
Definition tidy (s : str) : bool :=
  single_spaced true s && (is_empty s || last_nonspace s).

(** A run of white space gives one blank; [in_run] says that the code
    point before was white space. *)
Fixpoint squeeze (in_run : bool) (s : str) : str :=
  match s with
  | [] => []
  | a :: s' =>
      if is_space a then
        if in_run then squeeze true s' else 32%N :: squeeze true s'
      else a :: squeeze false s'
  end.

(** [sum(c.isalnum() for c in s)] *)
Definition count_alnum `{UnicodeData} (s : str) : nat :=
  length (List.filter isalnum s).

(** [sum(c.isalnum() for c in s) / max(len(s), 1)]: the quotient of two
    integers that doubles hold exactly (a length is far below 2^53),
    rounded once. *)
Definition alnum_ratio `{UnicodeData} (s : str) : float :=
  div (of_nat (count_alnum s)) (of_nat (Nat.max (len s) 1)).

Section WithTables.
Context `{UnicodeData}.

(** [re.sub(r"\s+", " ", s)] *)
Definition collapse_spaces (s : str) : str :=
  Sre.sub false (Re.RPlus Re.CSpace) (lit " ") s.

(** [normalize] of filter_pairs.py on a cell that is a [str]. *)
Definition normalize (s : str) : str :=
  let s := strip s in
  collapse_spaces s.

(** [is_bad_utterance] of preprocess.py. *)
Definition is_bad_utterance (s : str) : bool :=
  if is_empty s then true
  else
    let low := strip (lower s) in
    if bool_decide (low ∈ BAD_SHORT) then true
    else if len low <? Preprocess.MIN_LEN_Q then true
    else if ltb (alnum_ratio low) f0_5 then true
    else false.

(** [looks_like_noise] of filter_pairs.py. *)
Definition looks_like_noise (text : str) : bool :=
  let t := lower text in
  if 1 <=? count (lit "http") t then true
  else if ltb (alnum_ratio t) f0_55 then true
  else false.

End WithTables.
End Corpus.

(** ** Tables to run the definitions with

    The Unicode tables on the code points below U+0100, on the capital I
    with a dot (U+0130) and on the Kelvin sign (U+212A); every other code
    point is taken for a symbol without case.  The statements below do
    not depend on them. *)

Module Latin1.
Local Open Scope N_scope.

Definition is_letter (c : char) : bool :=
  (c =? 0xAA) || (c =? 0xB5) || (c =? 0xBA)
  || (between 0xC0 0xFF c && negb (c =? 0xD7) && negb (c =? 0xF7)).

(** The superscript digits and the fractions are numeric. *)
Definition is_number (c : char) : bool :=
  (c =? 0xB2) || (c =? 0xB3) || (c =? 0xB9) || between 0xBC 0xBE c.

Definition is_capital (c : char) : bool :=
  between 0xC0 0xDE c && negb (c =? 0xD7).

Definition alnum (c : char) : bool :=
  is_letter c || is_number c || (c =? 0x130) || (c =? 0x212A).

Definition to_lower (c : char) : char :=
  if is_capital c then c + 32
  else if c =? 0x130 then 0x69
  else if c =? 0x212A then 0x6B
  else c.

Definition to_lower_full (c : char) : str :=
  if c =? 0x130 then [0x69; 0x307] else [to_lower c].

Definition is_cased (c : char) : bool :=
  is_letter c || (c =? 0x130) || (c =? 0x212A).

Definition is_case_ignorable (c : char) : bool :=
  (c =? 0xA8) || (c =? 0xAD) || (c =? 0xAF) || (c =? 0xB4)
  || (c =? 0xB7) || (c =? 0xB8).

Definition tables : UnicodeData :=
  {| alnum_table := alnum;
     lower_table := to_lower_full;
     simple_lower_table := to_lower;
     cased_table := is_cased;
     case_ignorable_table := is_case_ignorable |}.

End Latin1.

(** ** Data to run the definitions on *)

Module PyData.

(** A candidate of the given similarity and answer. *)
Definition candidate (sim : Q) (answer : string) : result :=
  mkResult (decimal sim) (lit "q") (lit answer).

Definition NBSP : char := 0xA0%N.
Definition IDEOGRAPHIC_SPACE : char := 0x3000%N.
Definition KELVIN_SIGN : char := 0x212A%N.

End PyData.

End Py.

(** ** The embedding at work *)

Example lower_strip :
  PyStr.strip (PyStr.lower "  Run APT-get_09 Z  ") = "run apt-get_09 z".
Proof. reflexivity. Qed.

Example split_parts :
  Re.split Extract.SPLIT_RE "a, b && c.  d.e." = ["a"; " b "; " c"; "d.e."] /\
  Re.split Extract.SPLIT_RE "a," = ["a"; ""] /\
  Re.split Extract.SPLIT_RE "" = [""] /\
  Re.split Extract.SPLIT_RE ",," = [""; ""; ""] /\
  Re.split Extract.SPLIT_RE "x. y&&&z" = ["x"; "y"; "&z"].
Proof. repeat split; vm_compute; reflexivity. Qed.

Example delete_run :
  Re.delete true Extract.RUN_RE "RuN   apt run x" = "apt run x" /\
  Re.delete true Extract.RUN_RE "run" = "run" /\
  Re.delete true Extract.RUN_RE "xrun a" = "xrun a".
Proof. repeat split; vm_compute; reflexivity. Qed.

Example search_bounds :
  Re.search (Re.bounded "go to #") "go to #a" = true /\
  Re.search (Re.bounded "go to #") "go to # a" = false /\
  Re.search (Re.bounded "join") "join" = true /\
  Re.search (Re.bounded "join") "ajoin" = false /\
  Re.search (Re.bounded "join") "a join_" = false /\
  Re.search (Re.bounded "join") "(join)" = true /\
  Re.search Re.hashtag "see #ubuntu+1" = true /\
  Re.search Re.hashtag "issue # 12" = false.
Proof. repeat split; vm_compute; reflexivity. Qed.

(** The short answer of the specification: quality -0.5, total 0.4. *)
Example short_answer (s : surface) :
  quality_of s "a" == -0.5 /\
  total (score_result (quality_of s) (mkResult 0.9 "q" "a")) == 0.4.
Proof. by destruct s. Qed.

Example actionable_answer :
  Chat.answer_quality_score
    "try sudo apt-get update and then restart the service" == 2.3 /\
  App.answer_quality
    "try sudo apt-get update and then restart the service" == 2.3.
Proof. done. Qed.

Example in_domain :
  Chat.is_ubuntu_question "wifi not working after update" = true /\
  Chat.is_ubuntu_question "what's your favorite color" = false /\
  App.is_ubuntu_question "wifi not working after update" = true /\
  App.is_ubuntu_question "what's your favorite color" = false.
Proof. repeat split; vm_compute; reflexivity. Qed.

(** Eight distinct commands are kept out of nine: the reboot that the
    text mentions falls to the cut. *)
Example nine_commands :
  Extract.extract_commands
    "sudo a1, sudo a2, sudo a3, sudo a1, sudo a4, sudo a5, sudo a6, sudo a7, sudo a8, then reboot"
  = ["sudo a1"; "sudo a2"; "sudo a3"; "sudo a4"; "sudo a5"; "sudo a6";
     "sudo a7"; "sudo a8"].
Proof. vm_compute. reflexivity. Qed.

Example clean_text_examples :
  Preprocess.clean_text (Some "  [12:01] <bob>  hello  world  ")
  = "<bob> hello world" /\
  Preprocess.clean_text (Some "[a] [b] c") = "[b] c" /\
  Preprocess.clean_text (Some "[no close") = "[no close" /\
  Preprocess.clean_text (Some "x [a] y") = "x [a] y" /\
  Preprocess.clean_text (Some "[a]b]  c") = "b] c" /\
  Preprocess.clean_text (Some "[ab]") = "" /\
  Preprocess.clean_text (Some ("[a" +:+ NL +:+ "b] c")) = "c" /\
  Preprocess.clean_text (Some (" a" +:+ NL +:+ NL +:+ "  b ")) = "a b" /\
  Preprocess.clean_text None = "".
Proof. repeat split; vm_compute; reflexivity. Qed.

Example count_examples :
  FilterPairs.count "http" "hthttp" = 1%nat /\
  FilterPairs.count "http" "httphttp" = 2%nat /\
  FilterPairs.count "aa" "aaa" = 1%nat.
Proof. repeat split; vm_compute; reflexivity. Qed.

Example getitem_examples :
  Retrieval.getitem ["a"; "b"; "c"] (-4) = None /\
  Retrieval.getitem ["a"; "b"; "c"] (-3) = Some "a" /\
  Retrieval.getitem ["a"; "b"; "c"] (-1) = Some "c" /\
  Retrieval.getitem ["a"; "b"; "c"] 2 = Some "c" /\
  Retrieval.getitem ["a"; "b"; "c"] 3 = None.
Proof. repeat split; vm_compute; reflexivity. Qed.

(** ** The second embedding at work *)

(** The literals of the scorer are the doubles nearest to their
    decimals. *)
Example literals_are_nearest_doubles :
  Py.Float.f0_25 = Py.Float.decimal 0.25 /\
  Py.Float.f0_3 = Py.Float.decimal 0.3 /\
  Py.Float.f0_5 = Py.Float.decimal 0.5 /\
  Py.Float.f0_55 = Py.Float.decimal 0.55 /\
  Py.Float.f1_10 = Py.Float.decimal 1.10 /\
  Py.Float.f2_0 = Py.Float.decimal 2.0 /\
  Py.Float.f999_0 = Py.Float.decimal 999.0 /\
  Py.Float.f0_0 = Py.Float.decimal 0.0.
Proof. repeat split; vm_compute; reflexivity. Qed.

(** 0.5 + 0.3 is 0.8, and -0.5 + 0.8 is the double after 0.3. *)
Example rounded_sums :
  Py.Float.add Py.Float.f0_5 Py.Float.f0_3 = Py.Float.decimal 0.8 /\
  Py.Float.add (Py.Float.neg Py.Float.f0_5) (Py.Float.decimal 0.8)
  = S754_finite false 5404319552844596 (-54) /\
  Py.Float.f0_3 = S754_finite false 5404319552844595 (-54) /\
  Py.Float.ltb Py.Float.f0_3
    (Py.Float.add (Py.Float.neg Py.Float.f0_5) (Py.Float.decimal 0.8)) = true.
Proof. repeat split; vm_compute; reflexivity. Qed.

Example code_points :
  Py.Str.lit "JOINÉ" = [74; 79; 73; 78; 201]%N /\
  Py.Str.lit "ðŸ¤–" = [240; 376; 164; 8211]%N /\
  Py.Str.lit "€" = [8364]%N.
Proof. repeat split; vm_compute; reflexivity. Qed.

(** On ASCII texts the second embedding computes what the first one
    does, whatever the tables. *)
Example ascii_texts `{Py.Str.UnicodeData} :
  Py.Str.strip (Py.Str.lower (Py.Str.lit "  Run APT-get_09 Z  "))
  = Py.Str.lit "run apt-get_09 z" /\
  Py.Commands.extract_commands (Py.Str.lit "Run apt-get update, then reboot.")
  = [Py.Str.lit "sudo apt-get update"; Py.Str.lit "sudo reboot"] /\
  Py.Commands.extract_commands (Py.Str.lit "sudo apt-get update")
  = [Py.Str.lit "sudo apt-get update"] /\
  Py.Sre.split Extract.SPLIT_RE (Py.Str.lit "a, b && c.  d.e.")
  = map Py.Str.lit ["a"; " b "; " c"; "d.e."] /\
  Py.Sre.sub true Extract.RUN_RE [] (Py.Str.lit "RuN   apt run x")
  = Py.Str.lit "apt run x" /\
  Py.ChatPy.is_ubuntu_question (Py.Str.lit "wifi not working after update")
  = true /\
  Py.AppPy.is_ubuntu_question (Py.Str.lit "what's your favorite color")
  = false.
Proof. repeat split; vm_compute; reflexivity. Qed.

Example ascii_scores `{Py.Str.UnicodeData} (s : surface) :
  Py.quality_of s (Py.Str.lit "a") = Py.Float.neg Py.Float.f0_5 /\
  Py.quality_of s
    (Py.Str.lit "try sudo apt-get update and then restart the service")
  = Py.Float.decimal 2.3 /\
  Py.quality_of s (Py.Str.lit "Try sudo apt-get update, or JOIN us")
  = Py.Float.neg Py.Float.f2_0.
Proof. destruct s; repeat split; vm_compute; reflexivity. Qed.

(** Rounding decides between two candidates: 0.0 + 0.3 is 0.3, and
    -0.5 + (0.5 + 0.3) is the double after it, so the second candidate is
    the best one and heads the ranking. *)
Example rounding_decides_best `{Py.Str.UnicodeData} (s : surface) :
  let q1 := Py.PyData.candidate 0.0 "try this one weird fix" in
  let q2 :=
    Py.PyData.candidate (-0.5) "check the cable and the router again" in
  fst (Py.pick_best_of s [q1; q2]) = Some (Py.score_result (Py.quality_of s) q2) /\
  Py.hit <$> snd (Py.pick_best_of s [q1; q2]) = [q2; q1].
Proof. destruct s; split; vm_compute; reflexivity. Qed.

(** Letters, digits and white space beyond ASCII, with the Latin-1
    tables. *)
Example words_beyond_ascii (s : surface) :
  let quality := Py.quality_of (H := Py.Latin1.tables) s in
  quality (Py.Str.lit "JOINÉ") = Py.Float.neg Py.Float.f0_5 /\
  quality (Py.Str.lit "see #été") = Py.Float.neg Py.Float.f2_0 /\
  quality (Py.Str.lit "as" ++ Py.PyData.KELVIN_SIGN :: Py.Str.lit " on")
  = Py.Float.neg Py.Float.f2_0 /\
  quality (Py.Str.lit "please join" ++ [Py.PyData.NBSP])
  = Py.Float.neg Py.Float.f2_0.
Proof. destruct s; repeat split; vm_compute; reflexivity. Qed.

Example space_beyond_ascii `{Py.Str.UnicodeData} :
  Py.Str.strip (Py.PyData.NBSP :: Py.Str.lit " a " ++ [Py.PyData.IDEOGRAPHIC_SPACE])
  = Py.Str.lit "a" /\
  Py.Corpus.normalize (Py.Str.lit "a" ++ Py.PyData.NBSP :: Py.Str.lit "b")
  = Py.Str.lit "a b" /\
  Py.Corpus.normalize (Py.Str.lit " a  b ") = Py.Str.lit "a b" /\
  Py.Sre.split Extract.SPLIT_RE
    (Py.Str.lit "a." ++ Py.PyData.NBSP :: Py.Str.lit "b")
  = [Py.Str.lit "a"; Py.Str.lit "b"].
Proof. repeat split; vm_compute; reflexivity. Qed.

Example utterances_beyond_ascii :
  Py.Corpus.is_bad_utterance (H := Py.Latin1.tables) (Py.Str.lit "déjà vécu")
  = false /\
  Py.Corpus.looks_like_noise (H := Py.Latin1.tables) (Py.Str.lit "déjà vécu")
  = false /\
  Py.Corpus.alnum_ratio (H := Py.Latin1.tables) (Py.Str.lit "déjà vécu")
  = Py.Float.div (Py.Float.of_nat 8) (Py.Float.of_nat 9) /\
  Py.Corpus.is_bad_utterance (H := Py.Latin1.tables) (Py.Str.lit "-> ok <-")
  = true /\
  Py.Corpus.looks_like_noise (H := Py.Latin1.tables) [] = true.
Proof. repeat split; vm_compute; reflexivity. Qed.

(** The capital sigma at the end of a word and inside it. *)
Example capital_sigma `{Py.Str.UnicodeData} :
  Py.Str.lower [65; 0x3A3]%N = [97; 0x3C2]%N /\
  Py.Str.lower [65; 0x3A3; 66]%N = [97; 0x3C3; 98]%N /\
  Py.Str.lower [0x3A3]%N = [0x3C3]%N /\
  Py.Str.lower [65; 46; 0x3A3; 46; 32]%N = [97; 46; 0x3C2; 46; 32]%N.
Proof. repeat split; vm_compute; reflexivity. Qed.

(** ** Scores: comparison *)

Lemma Qltb_lt (x y : Q) : Qltb x y = true <-> x < y.
Proof.
  unfold Qltb. rewrite negb_true_iff, <- not_true_iff_false, Qle_bool_iff.
  split; [apply Qnot_le_lt | apply Qlt_not_le].
Qed.

Lemma Qltb_ge (x y : Q) : Qltb x y = false <-> y <= x.
Proof.
  unfold Qltb. rewrite negb_false_iff. apply Qle_bool_iff.
Qed.

(** ** The reranker *)

Section RerankFacts.
Variable quality : string -> Q.

Abbreviation score := (score_result quality).
Abbreviation loop := (rerank_loop quality).

Lemma rerank_loop_snd results best best_score :
  snd (loop results best best_score) = map score results.
Proof.
  revert best best_score.
  induction results as [|r rest IH]; intros best best_score; simpl; [done|].
  destruct (Qltb best_score (sim r + quality (answer r)));
    match goal with
    | |- context [loop rest ?b ?s] =>
        specialize (IH b s); destruct (loop rest b s)
    end; simpl in *; by f_equal.
Qed.

Lemma pick_best_snd results :
  snd (pick_best quality results) = sorted_desc (map score results).
Proof.
  unfold pick_best.
  pose proof (rerank_loop_snd results None (-999.0)) as H.
  destruct (loop results None (-999.0)); simpl in *. by rewrite H.
Qed.

Lemma pick_best_fst results :
  fst (pick_best quality results) = fst (loop results None (-999.0)).
Proof.
  unfold pick_best. by destruct (loop results None (-999.0)).
Qed.

Lemma score_result_invariant r : total_invariant quality (score r).
Proof. by split. Qed.

Lemma loop_inv_step seen best best_score r :
  loop_inv seen best best_score ->
  let c := score r in
  if Qltb best_score (total c)
  then loop_inv (seen ++ [c]) (Some c) (total c)
  else loop_inv (seen ++ [c]) best best_score.
Proof.
  intros Hinv c. destruct (Qltb best_score (total c)) eqn:Hcmp.
  - apply Qltb_lt in Hcmp. split; [done|].
    exists (length seen). split; [by rewrite list_lookup_middle|].
    assert (forall (j : nat) d, seen !! j = Some d -> total d < total c) as Hlt.
    { intros j d Hd. destruct best as [b|]; simpl in Hinv.
      - destruct Hinv as [-> (i & _ & Hmax & _)].
        eapply Qle_lt_trans; [by eapply Hmax | done].
      - destruct Hinv as [-> Hall].
        eapply Qle_lt_trans; [|exact Hcmp].
        apply Hall. by eapply list_elem_of_lookup_2. }
    split.
    + intros j d Hd. apply lookup_app_Some in Hd as [Hd|[_ Hd]].
      * apply Qlt_le_weak. by eapply Hlt.
      * apply list_lookup_singleton_Some in Hd as [_ <-]. apply Qle_refl.
    + intros j d Hd Heq. apply lookup_app_Some in Hd as [Hd|[Hge _]]; [|done].
      apply Hlt in Hd. rewrite Heq in Hd. by apply Qlt_irrefl in Hd.
  - apply Qltb_ge in Hcmp. destruct best as [b|]; simpl in *.
    + destruct Hinv as [-> (i & Hi & Hmax & Hfirst)]. split; [done|].
      exists i. split; [by apply lookup_app_l_Some|]. split.
      * intros j d Hd. apply lookup_app_Some in Hd as [Hd|[_ Hd]].
        -- by eapply Hmax.
        -- by apply list_lookup_singleton_Some in Hd as [_ <-].
      * intros j d Hd Heq. apply lookup_app_Some in Hd as [Hd|[Hge _]].
        -- by eapply Hfirst.
        -- apply lookup_lt_Some in Hi. lia.
    + destruct Hinv as [-> Hall]. split; [done|].
      intros d [Hd|Hd]%elem_of_app; [by apply Hall|].
      by apply list_elem_of_singleton in Hd as ->.
Qed.

Lemma loop_inv_run rest : forall seen best best_score,
  loop_inv seen best best_score ->
  exists best_score',
    loop_inv (seen ++ map score rest)
      (fst (loop rest best best_score)) best_score'.
Proof.
  induction rest as [|r rest IH]; intros seen best best_score Hinv; simpl.
  - exists best_score. by rewrite app_nil_r.
  - pose proof (loop_inv_step _ _ _ r Hinv) as Hstep.
    cbv zeta in Hstep. cbn [total score_result] in Hstep.
    destruct (Qltb best_score (sim r + quality (answer r)));
      destruct (IH _ _ _ Hstep) as [s' Hs']; exists s';
      rewrite <- app_assoc in Hs'; simpl in Hs';
      match goal with
      | |- context [loop rest ?b ?s] => destruct (loop rest b s)
      end; done.
Qed.

Lemma loop_inv_final results :
  exists best_score,
    loop_inv (map score results) (fst (pick_best quality results)) best_score.
Proof.
  rewrite pick_best_fst.
  apply (loop_inv_run results [] None (-999.0)).
  split; [done|]. intros c Hc. by apply elem_of_nil in Hc.
Qed.

(** With every total above the sentinel, a candidate is chosen, and it
    is the first maximal one. *)
Lemma pick_best_first_maximal results :
  results <> [] ->
  (forall r, r ∈ results -> -999.0 < sim r + quality (answer r)) ->
  exists best,
    fst (pick_best quality results) = Some best /\
    first_maximal (map score results) best.
Proof.
  intros Hne Habove. destruct (loop_inv_final results) as [s Hinv].
  destruct (fst (pick_best quality results)) as [b|]; simpl in Hinv.
  - exists b. by destruct Hinv.
  - exfalso. destruct Hinv as [_ Hall].
    destruct results as [|r rest]; [done|].
    specialize (Hall (score r)). specialize (Habove r).
    eapply Qlt_not_le; [apply Habove; left|]. apply Hall. left.
Qed.

(** *** The stable sort *)

Lemma insert_desc_perm x l : Permutation (x :: l) (insert_desc x l).
Proof.
  induction l as [|y l IH]; simpl; [done|].
  destruct (Qltb (total x) (total y)); [|done].
  rewrite <- IH. apply perm_swap.
Qed.

Lemma sorted_desc_perm l : Permutation l (sorted_desc l).
Proof.
  induction l as [|x l IH]; simpl; [done|].
  rewrite <- insert_desc_perm. by constructor.
Qed.

Lemma insert_desc_sorted x l :
  StronglySorted (fun a b => total b <= total a) l ->
  StronglySorted (fun a b => total b <= total a) (insert_desc x l).
Proof.
  induction 1 as [|y l Hs IH Hy]; simpl.
  - repeat constructor.
  - destruct (Qltb (total x) (total y)) eqn:Hcmp.
    + constructor; [done|].
      rewrite <- insert_desc_perm. constructor; [|done].
      apply Qlt_le_weak. by apply Qltb_lt.
    + apply Qltb_ge in Hcmp. constructor; [by constructor|].
      constructor; [done|].
      eapply Forall_impl; [exact Hy|]. simpl. intros z Hz.
      by eapply Qle_trans.
Qed.

Lemma sorted_desc_sorted l :
  StronglySorted (fun a b => total b <= total a) (sorted_desc l).
Proof.
  induction l as [|x l IH]; simpl; [constructor|].
  by apply insert_desc_sorted.
Qed.

Lemma insert_desc_filter t x l :
  List.filter (same_total t) (insert_desc x l)
  = List.filter (same_total t) (x :: l).
Proof.
  induction l as [|y l IH]; [done|]. simpl insert_desc.
  destruct (Qltb (total x) (total y)) eqn:Hcmp; [|done].
  apply Qltb_lt in Hcmp.
  change (List.filter (same_total t) (y :: insert_desc x l))
    with (if same_total t y
          then y :: List.filter (same_total t) (insert_desc x l)
          else List.filter (same_total t) (insert_desc x l)).
  rewrite IH. simpl. unfold same_total.
  destruct (Qeq_bool (total y) t) eqn:Hy; [|done].
  destruct (Qeq_bool (total x) t) eqn:Hx; [|done].
  apply Qeq_bool_iff in Hx, Hy. rewrite Hx, Hy in Hcmp.
  by apply Qlt_irrefl in Hcmp.
Qed.

Lemma sorted_desc_filter t l :
  List.filter (same_total t) (sorted_desc l) = List.filter (same_total t) l.
Proof.
  induction l as [|x l IH]; [done|].
  simpl sorted_desc. rewrite insert_desc_filter. simpl. by rewrite IH.
Qed.

Lemma sorted_desc_stable l : stable_desc l (sorted_desc l).
Proof.
  split; [apply sorted_desc_perm|].
  split; [apply sorted_desc_sorted | intros t; apply sorted_desc_filter].
Qed.

Lemma pick_best_invariant results c :
  c ∈ snd (pick_best quality results) -> total_invariant quality c.
Proof.
  rewrite pick_best_snd, <- sorted_desc_perm.
  intros (r & -> & _)%list_elem_of_fmap. apply score_result_invariant.
Qed.

End RerankFacts.

(** ** The quality scorer *)

Section ScorerFacts.
Variable BAD_PATTERNS : list Re.regex.
Variable GOOD_HINTS : list string.
Variable STEP_WORDS : list string.

Abbreviation quality := (quality_score BAD_PATTERNS GOOD_HINTS STEP_WORDS).


Lemma vetoed_iff a :
  vetoed BAD_PATTERNS a = true <->
  exists pat, pat ∈ BAD_PATTERNS /\ Re.search pat a = true.
Proof.
  unfold vetoed. rewrite existsb_exists.
  by setoid_rewrite list_elem_of_In.
Qed.

Lemma hint_score_ge a score : score <= hint_score GOOD_HINTS a score.
Proof.
  unfold hint_score. revert score.
  induction GOOD_HINTS as [|w ws IH]; intros score; simpl; [apply Qle_refl|].
  eapply Qle_trans; [|apply IH].
  destruct (PyStr.contains w a); [|apply Qle_refl].
  rewrite <- (Qplus_0_r score) at 1. by apply Qplus_le_r.
Qed.

Lemma length_score_ge L score : score - 0.5 <= length_score L score.
Proof.
  unfold length_score.
  destruct (_ && _); [|destruct (_ <? _)%nat; [|destruct (_ <? _)%nat]].
  - apply Qplus_le_r. done.
  - apply Qle_refl.
  - apply Qplus_le_r. done.
  - rewrite <- (Qplus_0_r score) at 2. by apply Qplus_le_r.
Qed.

Lemma step_score_ge a score : score <= step_score STEP_WORDS a score.
Proof.
  unfold step_score. destruct (existsb _ _); [|apply Qle_refl].
  rewrite <- (Qplus_0_r score) at 1. by apply Qplus_le_r.
Qed.

(** No answer scores below the veto. *)
Lemma quality_score_ge ans : -2.0 <= quality ans.
Proof.
  unfold quality_score. destruct (vetoed _ _); [done|].
  eapply Qle_trans; [|apply step_score_ge].
  eapply Qle_trans; [|apply length_score_ge].
  eapply Qle_trans; [|apply Qplus_le_l, hint_score_ge]. done.
Qed.

(** A similarity of the data model keeps the total above the sentinel of
    [pick_best]. *)
Lemma total_above_sentinel (r : result) :
  -1 <= sim r -> -999.0 < sim r + quality (answer r).
Proof.
  intros Hsim. apply Qlt_le_trans with (-1 + -2.0); [done|].
  apply Qplus_le_compat; [done | apply quality_score_ge].
Qed.
End ScorerFacts.

(** ** The command extractor *)

Module ExtractFacts.
Import PyStr Extract.

Lemma first_at_app c j l l' : first_at c j l -> first_at c j (l ++ l').
Proof.
  intros [Hj Hfirst]. split; [by apply lookup_app_l_Some|].
  intros j' Hlt Hj'. apply (Hfirst j' Hlt).
  apply lookup_lt_Some in Hj.
  rewrite lookup_app_l in Hj' by lia. done.
Qed.

Lemma first_at_fresh c l : c ∉ l -> first_at c (length l) (l ++ [c]).
Proof.
  intros Hc. split; [by rewrite list_lookup_middle|].
  intros j' Hlt Hj'. rewrite lookup_app_l in Hj' by done.
  apply Hc. by eapply list_elem_of_lookup_2.
Qed.

Lemma first_at_lt c j l : first_at c j l -> (j < length l)%nat.
Proof. intros [Hj _]. by eapply lookup_lt_Some. Qed.

Lemma unique_inv_init : unique_inv [] (∅, []).
Proof.
  split; [|split; [|split]]; simpl.
  - intros c. set_solver.
  - done.
  - constructor.
  - intros i c Hi. by rewrite lookup_nil in Hi.
Qed.

Lemma unique_inv_step done st c :
  unique_inv done st -> unique_inv (done ++ [c]) (unique_step st c).
Proof.
  destruct st as [seen unique]. intros (Hseen & Hdone & Hnodup & Hord).
  simpl in *. unfold unique_step. case_bool_decide as Hin; simpl.
  - split; [done|]. split; [|split; [done|]].
    + intros d. rewrite elem_of_app, list_elem_of_singleton, Hdone.
      split; [by left|]. intros [?| ->]; [done|].
      by apply Hdone, Hseen.
    + intros i d Hi. destruct (Hord i d Hi) as (j & Hj & Hbefore).
      exists j. split; [by apply first_at_app|].
      intros i' d' Hlt Hi'. destruct (Hbefore i' d' Hlt Hi') as (j' & ? & ?).
      exists j'. split; [done | by apply first_at_app].
  - assert (c ∉ done) as Hfresh by (by rewrite <- Hdone, <- Hseen).
    split; [|split; [|split]].
    + intros d. simpl. rewrite elem_of_union, elem_of_singleton, elem_of_app,
        list_elem_of_singleton, Hseen. done.
    + intros d. simpl. rewrite !elem_of_app, Hdone. done.
    + apply NoDup_app. split; [done|]. split; [|apply NoDup_singleton].
      intros d Hd ->%list_elem_of_singleton. by apply Hin, Hseen.
    + simpl. intros i d Hi. apply lookup_app_Some in Hi as [Hi|[Hge Hi]].
      * destruct (Hord i d Hi) as (j & Hj & Hbefore).
        exists j. split; [by apply first_at_app|].
        intros i' d' Hlt Hi'.
        assert (unique !! i' = Some d') as Hu.
        { apply lookup_lt_Some in Hi.
          rewrite lookup_app_l in Hi' by lia. done. }
        destruct (Hbefore i' d' Hlt Hu) as (j' & ? & ?).
        exists j'. split; [done | by apply first_at_app].
      * apply list_lookup_singleton_Some in Hi as [Hi <-].
        exists (length done). split; [by apply first_at_fresh|].
        intros i' d' Hlt Hi'.
        assert (unique !! i' = Some d') as Hu.
        { rewrite lookup_app_l in Hi' by lia. done. }
        destruct (Hord i' d' Hu) as (j' & Hj' & _).
        exists j'. split; [by eapply first_at_lt | by apply first_at_app].
Qed.

Lemma unique_inv_fold l : forall done st,
  unique_inv done st -> unique_inv (done ++ l) (fold_left unique_step l st).
Proof.
  induction l as [|c l IH]; intros done st Hinv; simpl.
  - by rewrite app_nil_r.
  - rewrite cons_middle, app_assoc. by apply IH, unique_inv_step.
Qed.

Lemma unique_of_inv commands :
  unique_inv commands (fold_left unique_step commands (∅, [])).
Proof. apply (unique_inv_fold commands [] _ unique_inv_init). Qed.

Lemma unique_of_NoDup commands : NoDup (unique_of commands).
Proof. apply unique_of_inv. Qed.

Lemma unique_of_elem commands c : c ∈ unique_of commands <-> c ∈ commands.
Proof. apply unique_of_inv. Qed.

Lemma unique_of_order commands :
  first_occurrence_order commands (unique_of commands).
Proof. apply unique_of_inv. Qed.

Lemma first_occurrence_order_take l out n :
  first_occurrence_order l out -> first_occurrence_order l (take n out).
Proof.
  intros Hord i c [Hi Hlt]%lookup_take_Some.
  destruct (Hord i c Hi) as (j & Hj & Hbefore). exists j. split; [done|].
  intros i' c' Hlt' [Hi' _]%lookup_take_Some. by eapply Hbefore.
Qed.

(** The early return on the empty text agrees with the general path. *)
Lemma extract_commands_eq text :
  extract_commands text = take 8 (unique_of (collect (strip text))).
Proof. unfold extract_commands. by destruct text. Qed.
End ExtractFacts.

(** ** Strings *)

Module PyStrFacts.
Import PyStr.

(** One step of [+:+] on a text that starts with a character. *)
Ltac app_step := unfold String.append; fold String.append.

Lemma app_assoc (a b c : string) : (a +:+ b) +:+ c = a +:+ (b +:+ c).
Proof. induction a as [|x a IH]; [done|]. app_step. by rewrite IH. Qed.

Lemma startswith_app n s : startswith n (n +:+ s) = true.
Proof.
  induction n as [|x n IH]; [by destruct s|]. app_step. simpl.
  rewrite IH. by rewrite bool_decide_eq_true_2.
Qed.

Lemma contains_here n s : startswith n s = true -> contains n s = true.
Proof. destruct s; simpl; by intros ->. Qed.

Lemma contains_app pre n post : contains n (pre +:+ n +:+ post) = true.
Proof.
  induction pre as [|x pre IH].
  - app_step. apply contains_here, startswith_app.
  - app_step. simpl. rewrite IH. apply orb_true_r.
Qed.

Lemma app_empty_r (s : string) : s +:+ "" = s.
Proof. induction s as [|x s IH]; [done|]. app_step. by rewrite IH. Qed.

Lemma contains_suffix pre n : contains n (pre +:+ n) = true.
Proof. rewrite <- (app_empty_r n) at 2. apply contains_app. Qed.

Lemma join_cons sep x y l :
  join sep (x :: y :: l) = x +:+ sep +:+ join sep (y :: l).
Proof. done. Qed.

Lemma join_app sep l1 l2 :
  l1 <> [] -> l2 <> [] ->
  join sep (l1 ++ l2) = join sep l1 +:+ sep +:+ join sep l2.
Proof.
  intros H1 H2. induction l1 as [|x [|y l1] IH]; [done| |].
  - destruct l2; done.
  - change ((x :: y :: l1) ++ l2) with (x :: y :: (l1 ++ l2)).
    rewrite !join_cons. change (y :: l1 ++ l2) with ((y :: l1) ++ l2).
    rewrite IH by done. by rewrite !app_assoc.
Qed.

Lemma lstrip_blank s : blank s = true -> lstrip s = "".
Proof.
  induction s as [|c s IH]; simpl; [done|].
  intros [-> Hs]%andb_true_iff. by apply IH.
Qed.

Lemma strip_blank s : blank s = true -> strip s = "".
Proof. intros Hs. unfold strip. by rewrite lstrip_blank. Qed.



End PyStrFacts.

(** ** Patterns and normalisation

    The scorer looks for the patterns in the lowercased, trimmed answer.
    A pattern of the veto lists that matches the answer as it is written
    matches the normalised answer too. *)

Module ReFacts.
Import PyStr Re PyStrFacts.

Lemma is_word_lower c : is_word (lower_char c) = is_word c.
Proof. by destruct c as [[] [] [] [] [] [] [] []]. Qed.

Lemma space_not_word c : is_space c = true -> is_word c = false.
Proof. by destruct c as [[] [] [] [] [] [] [] []]. Qed.

Lemma lower_app a b : lower (a +:+ b) = lower a +:+ lower b.
Proof. induction a as [|x a IH]; [done|]. app_step. simpl. by rewrite IH. Qed.

Lemma app_nonempty (w t : string) : w <> "" -> w +:+ t <> "".
Proof. by destruct w. Qed.

Lemma lstrip_app pre x :
  first_nonspace x = true -> lstrip (pre +:+ x) = lstrip pre +:+ x.
Proof.
  intros Hx. induction pre as [|c pre IH].
  - destruct x as [|a x]; [done|]. simpl in *.
    by apply negb_true_iff in Hx as ->.
  - app_step. simpl. destruct (is_space c); [done|]. by app_step.
Qed.

Lemma rstrip_app u v : rstrip v <> "" -> rstrip (u +:+ v) = u +:+ rstrip v.
Proof.
  intros Hv. induction u as [|c u IH]; [done|]. app_step. simpl.
  rewrite IH. destruct (u +:+ rstrip v) eqn:Hu; [|by rewrite andb_false_r].
  exfalso. destruct u; [done|]. by app_step.
Qed.

Lemma rstrip_last w post :
  last_nonspace w = true -> rstrip (w +:+ post) = w +:+ rstrip post.
Proof.
  induction w as [|c w IH]; [done|]. simpl. intros Hw. app_step. simpl.
  destruct w as [|d w]; simpl in Hw.
  - app_step. by apply negb_true_iff in Hw as ->.
  - rewrite (IH Hw). app_step. by rewrite andb_false_r.
Qed.

Lemma last_nonspace_nonempty w : last_nonspace w = true -> w <> "".
Proof. by destruct w. Qed.

Lemma strip_around pre w post :
  first_nonspace w = true -> last_nonspace w = true ->
  strip (pre +:+ w +:+ post) = lstrip pre +:+ w +:+ rstrip post.
Proof.
  intros Hfirst Hlast. unfold strip.
  rewrite lstrip_app by (by destruct w).
  rewrite rstrip_app; rewrite rstrip_last by done; [done|].
  by apply app_nonempty, last_nonspace_nonempty.
Qed.

Lemma prev_after_app p a b :
  prev_after p (a +:+ b) = prev_after (prev_after p a) b.
Proof.
  revert p. induction a as [|x a IH]; intros p; [done|]. app_step. apply IH.
Qed.

Lemma prev_after_nonempty p q w : w <> "" -> prev_after p w = prev_after q w.
Proof. by destruct w. Qed.

Lemma word_before_prev_after p q t :
  word_before p = word_before q ->
  word_before (prev_after p t) = word_before (prev_after q t).
Proof. by destruct t. Qed.

Lemma word_before_lower pre : forall p q,
  word_before p = word_before q ->
  word_before (prev_after p (lower pre)) = word_before (prev_after q pre).
Proof.
  induction pre as [|c pre IH]; intros p q Hpq; [done|]. simpl.
  apply IH. simpl. apply is_word_lower.
Qed.

Lemma word_here_lower t : word_here (lower t) = word_here t.
Proof. destruct t; [done|]. apply is_word_lower. Qed.

Lemma word_before_lstrip pre : forall p q,
  word_before p = false -> word_before q = false ->
  word_before (prev_after p (lstrip pre)) = word_before (prev_after q pre).
Proof.
  induction pre as [|c pre IH]; intros p q Hp Hq; simpl; [congruence|].
  destruct (is_space c) eqn:Hc; [|done].
  apply IH; [done|]. by apply space_not_word.
Qed.

Lemma word_here_rstrip post : word_here (rstrip post) = word_here post.
Proof.
  destruct post as [|c post]; [done|]. simpl.
  destruct (is_space c) eqn:Hc; simpl; [|done].
  destruct (rstrip post); simpl; [|done].
  symmetry. by apply space_not_word.
Qed.

Lemma word_here_app w t : w <> "" -> word_here (w +:+ t) = word_here w.
Proof. by destruct w. Qed.

(** *** The matcher on the two shapes of pattern *)

Lemma match_lit_app l : forall prev rest k,
  match_lit false l prev (l +:+ rest) k = k (prev_after prev l) rest.
Proof.
  induction l as [|a l IH]; intros prev rest k; [done|]. app_step. simpl.
  rewrite bool_decide_eq_true_2 by done. apply IH.
Qed.

Lemma match_lit_inv l : forall prev s k,
  is_Some (match_lit false l prev s k) -> exists rest, s = l +:+ rest.
Proof.
  induction l as [|a l IH]; intros prev s k Hm; [by exists s|].
  simpl in Hm. destruct s as [|b s]; [by destruct Hm|].
  unfold char_eq in Hm. case_bool_decide as Hab; [|by destruct Hm].
  subst b. destruct (IH _ _ _ Hm) as [rest ->]. by exists rest.
Qed.

Lemma search_from_intro r pre : forall prev post,
  is_Some (match_at false r (prev_after prev pre) post) ->
  search_from false r prev (pre +:+ post) = true.
Proof.
  induction pre as [|c pre IH]; intros prev post Hm.
  - change ("" +:+ post) with post. simpl in Hm.
    destruct post; simpl; by destruct Hm as [x ->].
  - app_step. simpl. destruct (match_at false r prev _); [done|]. by apply IH.
Qed.

Lemma search_from_elim r s : forall prev,
  search_from false r prev s = true ->
  exists pre post,
    s = pre +:+ post /\ is_Some (match_at false r (prev_after prev pre) post).
Proof.
  induction s as [|c s IH]; intros prev Hs; simpl in Hs.
  - destruct (match_at false r prev "") eqn:Hm; [|done].
    exists "", "". simpl. by rewrite Hm.
  - destruct (match_at false r prev (String c s)) eqn:Hm.
    + exists "", (String c s). simpl. by rewrite Hm.
    + destruct (IH _ Hs) as (pre & post & -> & Hpost).
      by exists (String c pre), post.
Qed.

Lemma match_bounded w prev s :
  is_Some (match_at false (bounded w) prev s) <->
  xorb (word_before prev) (word_here s) = true /\
  exists rest, s = w +:+ rest /\
    xorb (word_before (prev_after prev w)) (word_here rest) = true.
Proof.
  unfold match_at, bounded. simpl. split.
  - destruct (xorb (word_before prev) (word_here s)); [|by intros []].
    intros Hm. split; [done|].
    destruct (match_lit_inv _ _ _ _ Hm) as [rest ->]. exists rest.
    split; [done|]. rewrite match_lit_app in Hm.
    destruct (xorb _ _); [done | by destruct Hm].
  - intros (-> & rest & -> & Hend). by rewrite match_lit_app, Hend.
Qed.

Lemma rep_total cl : forall prev s,
  is_Some (rep cl (fun _ rest => Some rest) prev s).
Proof.
  intros prev s. revert prev.
  induction s as [|c s IH]; intros prev; simpl; [done|].
  destruct (in_class cl c); [|done].
  by destruct (rep cl _ (Some c) s).
Qed.

Lemma match_hashtag prev s :
  is_Some (match_at false hashtag prev s) <->
  exists c t, s = String "#" (String c t) /\ is_word c = true.
Proof.
  unfold match_at, hashtag. simpl. split.
  - destruct s as [|a s]; [by intros []|]. unfold char_eq.
    case_bool_decide as Ha; [subst a|by intros []].
    destruct s as [|c t]; [by intros []|]. simpl.
    destruct (is_word c) eqn:Hc; [|by intros []]. by exists c, t.
  - intros (c & t & -> & Hc). simpl. rewrite Hc. apply rep_total.
Qed.

Lemma search_bounded w s :
  w <> "" -> search (bounded w) s = true <-> occurs_bounded w s.
Proof.
  intros Hw. unfold search. split.
  - intros (pre & post & -> & Hm)%search_from_elim.
    apply match_bounded in Hm as (Hstart & rest & -> & Hend).
    exists pre, rest. split; [done|].
    rewrite word_here_app in Hstart by done. split; [done|].
    by rewrite (prev_after_nonempty None (prev_after None pre)).
  - intros (pre & post & -> & Hstart & Hend).
    apply search_from_intro, match_bounded.
    rewrite word_here_app by done. split; [done|]. exists post.
    split; [done|].
    by rewrite (prev_after_nonempty (prev_after None pre) None).
Qed.

Lemma search_hashtag s : search hashtag s = true <-> occurs_hashtag s.
Proof.
  unfold search. split.
  - intros (pre & post & -> & Hm)%search_from_elim.
    apply match_hashtag in Hm as (c & t & -> & Hc). by exists pre, c, t.
  - intros (pre & c & t & -> & Hc).
    apply search_from_intro, match_hashtag. by exists c, t.
Qed.

(** *** Normalising keeps an occurrence *)

Lemma occurs_bounded_normalised w s :
  lower w = w -> first_nonspace w = true -> last_nonspace w = true ->
  occurs_bounded w s -> occurs_bounded w (strip (lower s)).
Proof.
  intros Hlow Hfirst Hlast (pre & post & -> & Hstart & Hend).
  exists (lstrip (lower pre)), (rstrip (lower post)).
  rewrite !lower_app, Hlow. split; [by apply strip_around|].
  rewrite word_here_rstrip, word_here_lower. split; [|done].
  rewrite (word_before_lstrip _ None None) by done.
  by rewrite (word_before_lower _ None None).
Qed.

Lemma occurs_hashtag_normalised s :
  occurs_hashtag s -> occurs_hashtag (strip (lower s)).
Proof.
  intros (pre & c & post & -> & Hc).
  exists (lstrip (lower pre)), (lower_char c), (rstrip (lower post)).
  rewrite is_word_lower. split; [|done]. rewrite lower_app. simpl.
  assert (is_space (lower_char c) = false) as Hsp.
  { destruct (is_space (lower_char c)) eqn:Hs; [|done].
    apply space_not_word in Hs. rewrite is_word_lower in Hs. congruence. }
  change (String (lower_char "#") (String (lower_char c) (lower post)))
    with (String "#" (String (lower_char c) "") +:+ lower post).
  rewrite strip_around; [done|done|]. simpl. by rewrite Hsp.
Qed.

Lemma search_normalised r s :
  noise_pattern r ->
  search r s = true -> search r (strip (lower s)) = true.
Proof.
  intros [-> | (w & -> & Hlow & Hfirst & Hlast)].
  - rewrite !search_hashtag. apply occurs_hashtag_normalised.
  - rewrite !search_bounded by (by apply last_nonspace_nonempty).
    by apply occurs_bounded_normalised.
Qed.

Lemma bounded_noise w :
  lower w = w -> first_nonspace w = true -> last_nonspace w = true ->
  noise_pattern (bounded w).
Proof. intros. right. by exists w. Qed.
End ReFacts.

(** ** The response formatter *)

Section FormatFacts.
Variables HEAD STEP1 STEP2 STEP3 : string.

Lemma format_with_ends best_answer :
  exists pre,
    format_with HEAD STEP1 STEP2 STEP3 best_answer = pre +:+ DIAGNOSTIC_BLOCK.
Proof.
  unfold format_with.
  set (front := match Extract.extract_commands best_answer with
                | [] => _ | _ :: _ => _ end).
  assert (front <> []) as Hfront.
  { subst front. by destruct (Extract.extract_commands _). }
  rewrite (assoc_L (++) front).
  rewrite PyStrFacts.join_app; [|by destruct front|done].
  eexists. rewrite <- PyStrFacts.app_assoc. reflexivity.
Qed.

Lemma format_with_contains best_answer :
  PyStr.contains DIAGNOSTIC_BLOCK
    (format_with HEAD STEP1 STEP2 STEP3 best_answer) = true.
Proof.
  destruct (format_with_ends best_answer) as [pre ->].
  apply PyStrFacts.contains_suffix.
Qed.
End FormatFacts.

(** ** The two surfaces *)

Module ChatFacts.
Import PyStr Chat.


Lemma main_turn_blank search line w :
  blank line = true -> main_turn search line w = (Continue, w).
Proof.
  intros Hb. unfold main_turn. by rewrite PyStrFacts.strip_blank.
Qed.

(** The loop reads on after a blank line as if it had not been typed. *)
Lemma main_loop_blank search line lines w :
  blank line = true ->
  main_loop search (line :: lines) w = main_loop search lines w.
Proof. intros Hb. simpl. by rewrite main_turn_blank. Qed.

Lemma main_turn_exit search w : main_turn search " Exit " w = (Break, w).
Proof. reflexivity. Qed.
End ChatFacts.

Module AppFacts.
Import PyStr App.

Lemma send_blank search user_q w :
  blank user_q = true -> send search user_q w = (Idle, w).
Proof.
  intros Hb. unfold send. by rewrite PyStrFacts.strip_blank.
Qed.
End AppFacts.

(** * The second embedding: lemmas *)

(** ** The order of the doubles *)

Module FloatFacts.
Import Py.Float.

Ltac by_cases :=
  unfold ltb, leb, eqb, is_nan, SFltb, SFleb, SFeqb, SFcompare in *;
  repeat match goal with
    | x : float |- _ => destruct x as [[]|[]| |[] ? ?]
    end;
  simpl in *; try congruence;
  repeat match goal with
    | |- context [PosDef.Pos.compare_cont Eq ?a ?b] =>
        change (PosDef.Pos.compare_cont Eq a b) with (Pos.compare a b)
    | H : context [PosDef.Pos.compare_cont Eq ?a ?b] |- _ =>
        change (PosDef.Pos.compare_cont Eq a b) with (Pos.compare a b) in H
    end;
  repeat match goal with
    | |- context [(?a ?= ?b)%Z] => destruct (Z.compare_spec a b)
    | H : context [(?a ?= ?b)%Z] |- _ => destruct (Z.compare_spec a b)
    | |- context [(?a ?= ?b)%positive] => destruct (Pos.compare_spec a b)
    | H : context [(?a ?= ?b)%positive] |- _ => destruct (Pos.compare_spec a b)
    end;
  simpl in *; try congruence; try lia.

Lemma ltb_irrefl (x : float) : ltb x x = false.
Proof. by_cases. Qed.

Lemma ltb_asym (x y : float) : ltb x y = true -> ltb y x = false.
Proof. by_cases. Qed.

Lemma ltb_trans (x y z : float) :
  ltb x y = true -> ltb y z = true -> ltb x z = true.
Proof. by_cases. Qed.


Lemma ltb_not_ltb_trans (x y z : float) :
  ltb x y = true -> ltb z y = false -> is_nan z = false -> ltb x z = true.
Proof. by_cases. Qed.

Lemma not_ltb_ltb_trans (x y z : float) :
  ltb y x = false -> is_nan x = false -> ltb y z = true -> ltb x z = true.
Proof. by_cases. Qed.

Lemma ltb_number_l (x y : float) : ltb x y = true -> is_nan x = false.
Proof. by_cases. Qed.


Lemma leb_not_ltb (x y : float) :
  is_nan x = false -> is_nan y = false -> leb x y = negb (ltb y x).
Proof. by_cases. Qed.

Lemma ltb_leb (x y : float) : ltb x y = true -> leb x y = true.
Proof. by_cases. Qed.

Lemma leb_refl (x : float) : is_nan x = false -> leb x x = true.
Proof. by_cases. Qed.




Lemma eqb_trans_l (x y t : float) :
  ltb x y = true -> eqb y t = true -> eqb x t = false.
Proof. by_cases. Qed.

(** [x + (-y)] is [x - y]. *)
Lemma add_neg (x y : float) : add x (neg y) = sub x y.
Proof.
  unfold add, sub, neg.
  destruct x as [[]|[]| |[] ? ?], y as [[]|[]| |[] ? ?]; reflexivity.
Qed.

End FloatFacts.

(** ** The reranker over doubles *)

Section FloatRerank.
Import Py Py.Float.
Local Close Scope Q_scope.
Variable quality : Str.str -> float.

Abbreviation fscore := (score_result quality).
Abbreviation floop := (rerank_loop quality).
Abbreviation sentinel := (neg f999_0).



Lemma float_pick_best_fst results :
  fst (pick_best quality results) = fst (floop results None sentinel).
Proof.
  unfold pick_best. by destruct (floop results None sentinel).
Qed.

Lemma float_loop_inv_step seen best best_score r :
  loop_inv seen best best_score ->
  let c := fscore r in
  if ltb best_score (total c)
  then loop_inv (seen ++ [c]) (Some c) (total c)
  else loop_inv (seen ++ [c]) best best_score.
Proof.
  intros Hinv c. destruct (ltb best_score (total c)) eqn:Hcmp.
  - assert (ltb sentinel (total c) = true) as Habove.
    { destruct best as [b|]; simpl in Hinv.
      - destruct Hinv as (-> & Hb & _).
        by eapply FloatFacts.ltb_trans.
      - by destruct Hinv as [-> _]. }
    split; [done|]. split; [done|].
    exists (length seen). split; [by rewrite list_lookup_middle|].
    assert (forall (j : nat) d, seen !! j = Some d ->
              ltb (total d) (total c) = true \/ is_nan (total d) = true)
      as Hlt.
    { intros j d Hd. destruct (is_nan (total d)) eqn:Hnum; [by right|left].
      destruct best as [b|]; simpl in Hinv.
      - destruct Hinv as (-> & _ & i & _ & Hmax & _).
        eapply FloatFacts.not_ltb_ltb_trans; [by eapply Hmax|done|done].
      - destruct Hinv as [-> Hall].
        eapply FloatFacts.not_ltb_ltb_trans; [|done|done].
        apply Hall. by eapply list_elem_of_lookup_2. }
    split.
    + intros j d Hd. apply lookup_app_Some in Hd as [Hd|[_ Hd]].
      * destruct (Hlt _ _ Hd) as [Hd'|Hd'].
        -- by apply FloatFacts.ltb_asym.
        -- destruct (total d); try discriminate. by destruct (total c).
      * apply list_lookup_singleton_Some in Hd as [_ <-].
        apply FloatFacts.ltb_irrefl.
    + intros j d Hd Hj. apply lookup_app_Some in Hd as [Hd|[Hge _]]; [|lia].
      by eapply Hlt.
  - destruct best as [b|]; simpl in *.
    + destruct Hinv as (-> & Hb & i & Hi & Hmax & Hfirst).
      split; [done|]. split; [done|].
      exists i. split; [by apply lookup_app_l_Some|]. split.
      * intros j d Hd. apply lookup_app_Some in Hd as [Hd|[_ Hd]].
        -- by eapply Hmax.
        -- by apply list_lookup_singleton_Some in Hd as [_ <-].
      * intros j d Hd Hj. apply lookup_app_Some in Hd as [Hd|[Hge _]].
        -- by eapply Hfirst.
        -- apply lookup_lt_Some in Hi. lia.
    + destruct Hinv as [-> Hall]. split; [done|].
      intros d [Hd|Hd]%elem_of_app; [by apply Hall|].
      by apply list_elem_of_singleton in Hd as ->.
Qed.

Lemma float_loop_inv_run rest : forall seen best best_score,
  loop_inv seen best best_score ->
  exists best_score',
    loop_inv (seen ++ map fscore rest)
      (fst (floop rest best best_score)) best_score'.
Proof.
  induction rest as [|r rest IH]; intros seen best best_score Hinv; simpl.
  - exists best_score. by rewrite app_nil_r.
  - pose proof (float_loop_inv_step _ _ _ r Hinv) as Hstep.
    cbv zeta in Hstep. cbn [total score_result] in Hstep.
    destruct (ltb best_score (add (sim r) (quality (answer r))));
      destruct (IH _ _ _ Hstep) as [s' Hs']; exists s';
      rewrite <- app_assoc in Hs'; simpl in Hs';
      match goal with
      | |- context [floop rest ?b ?s] => destruct (floop rest b s)
      end; done.
Qed.

Lemma float_loop_inv_final results :
  exists best_score,
    loop_inv (map fscore results) (fst (pick_best quality results)) best_score.
Proof.
  rewrite float_pick_best_fst.
  apply (float_loop_inv_run results [] None sentinel).
  split; [done|]. intros c Hc. by apply elem_of_nil in Hc.
Qed.

(** No candidate is chosen exactly when no total exceeds the sentinel. *)
Lemma float_pick_best_none results :
  fst (pick_best quality results) = None <->
  forall c, c ∈ map fscore results -> ltb sentinel (total c) = false.
Proof.
  destruct (float_loop_inv_final results) as [s Hinv].
  destruct (fst (pick_best quality results)) as [b|]; simpl in Hinv.
  - split; [done|]. intros Hall.
    destruct Hinv as (_ & Hb & i & Hi & _).
    rewrite Hall in Hb; [done|]. by eapply list_elem_of_lookup_2.
  - by destruct Hinv.
Qed.


Lemma float_pick_best_scored results b :
  fst (pick_best quality results) = Some b ->
  b ∈ map fscore results.
Proof.
  intros Hb. destruct (float_loop_inv_final results) as [s Hinv].
  rewrite Hb in Hinv. destruct Hinv as (_ & _ & i & Hi & _).
  by eapply list_elem_of_lookup_2.
Qed.

(** *** The stable sort *)








End FloatRerank.

(** ** The quality scorer over doubles *)

Section FloatScorer.
Import Py Py.Float Py.Str.
Local Close Scope Q_scope.
Context `{UnicodeData}.
Variable BAD_PATTERNS : list Re.regex.
Variable GOOD_HINTS : list str.
Variable STEP_WORDS : list str.

Abbreviation fquality := (quality_score BAD_PATTERNS GOOD_HINTS STEP_WORDS).

(** The veto returns before any other term is looked at. *)
Lemma float_quality_vetoed ans :
  vetoed BAD_PATTERNS (strip (lower ans)) = true ->
  fquality ans = neg f2_0.
Proof. unfold quality_score. by intros ->. Qed.

Lemma float_vetoed_iff a :
  vetoed BAD_PATTERNS a = true <->
  exists pat, pat ∈ BAD_PATTERNS /\ Sre.search pat a = true.
Proof.
  unfold vetoed. rewrite existsb_exists.
  by setoid_rewrite list_elem_of_In.
Qed.

Lemma quarters_succ k score :
  quarters k (add score f0_25) = quarters (S k) score.
Proof. unfold quarters. by rewrite Nat.iter_succ_r. Qed.

(** The loop over the hints adds 0.25 once for each hint found. *)
Lemma hint_score_quarters a score :
  hint_score GOOD_HINTS a score
  = quarters (length (hints_in GOOD_HINTS a)) score.
Proof.
  unfold hint_score, hints_in. revert score.
  induction GOOD_HINTS as [|w ws IH]; intros score; simpl; [done|].
  destruct (contains w a); simpl; [|apply IH].
  by rewrite IH, quarters_succ.
Qed.

Lemma hints_in_length a : length (hints_in GOOD_HINTS a) <= length GOOD_HINTS.
Proof.
  unfold hints_in. induction GOOD_HINTS as [|w ws IH]; simpl; [done|].
  destruct (contains w a); simpl; lia.
Qed.

(** The value of an answer that is not vetoed, from the number of its
    hints, its length and its phrasing. *)
Lemma float_quality_value ans :
  let a := strip (lower ans) in
  vetoed BAD_PATTERNS a = false ->
  fquality ans
  = step_score STEP_WORDS a
      (length_score (len a) (quarters (length (hints_in GOOD_HINTS a)) f0_0)).
Proof.
  intros a Hveto. unfold quality_score. fold a. rewrite Hveto.
  by rewrite hint_score_quarters.
Qed.

End FloatScorer.

Module RangeFacts.
Import Py Py.Float Py.Str.
Local Close Scope Q_scope.

(** Thirty hints at most, any length, any phrasing: the value lies
    between -0.5 and 8.3; with twenty-two hints at most, below 6.3. *)
Lemma value_range (n : nat) (hi : float) (words : list str)
    (k L : nat) (a : str) :
  (n = 30 /\ hi = f8_3) \/ (n = 22 /\ hi = f6_3) ->
  k <= n ->
  let q := step_score words a (length_score L (quarters k f0_0)) in
  leb (neg f0_5) q = true /\ leb q hi = true.
Proof.
  intros Hn Hk. unfold step_score, length_score.
  destruct (existsb _ words), ((30 <=? L) && (L <=? 350)), (L <? 15),
    (600 <? L);
    destruct Hn as [[-> ->]|[-> ->]];
    do 31 (destruct k as [|k]; [first [by vm_compute | lia]|]); lia.
Qed.

End RangeFacts.

(** ** Texts of code points *)

Module StrFacts.
Import Py Py.Str.
Local Close Scope Q_scope.

Lemma blank_lstrip s : blank s = true -> lstrip s = [].
Proof.
  induction s as [|c s IH]; simpl; [done|].
  intros [-> Hs]%andb_true_iff. by apply IH.
Qed.

Lemma blank_strip s : blank s = true -> strip s = [].
Proof. intros Hs. unfold strip. by rewrite blank_lstrip. Qed.

Lemma rstrip_nil_blank s : rstrip s = [] -> blank s = true.
Proof.
  induction s as [|c s IH]; simpl; [done|].
  destruct (is_space c); simpl; [|done].
  destruct (rstrip s); simpl; [|done]. intros _. by apply IH.
Qed.

Lemma lstrip_blank_blank s : blank (lstrip s) = true -> blank s = true.
Proof.
  induction s as [|c s IH]; simpl; [done|].
  destruct (is_space c) eqn:Hc; simpl; [done|]. by rewrite Hc.
Qed.

(** Nothing is left of a text after [strip] exactly when each of its code
    points is white space. *)
Lemma strip_nil_iff s : strip s = [] <-> blank s = true.
Proof.
  split; [|apply blank_strip].
  intros Hs. by apply lstrip_blank_blank, rstrip_nil_blank.
Qed.

Lemma strip_not_blank s : blank s = false -> is_empty (strip s) = false.
Proof.
  intros Hb. destruct (strip s) eqn:Hs; [|done].
  apply strip_nil_iff in Hs. congruence.
Qed.

Lemma lstrip_of_first s : first_nonspace s = true -> lstrip s = s.
Proof.
  destruct s as [|c s]; simpl; [done|]. by intros ->%negb_true_iff.
Qed.

Lemma lstrip_starts s : lstrip s = [] \/ first_nonspace (lstrip s) = true.
Proof.
  induction s as [|c s IH]; simpl; [by left|].
  destruct (is_space c) eqn:Hc; [done|]. right. simpl. by rewrite Hc.
Qed.

Lemma rstrip_starts s :
  first_nonspace s = true -> first_nonspace (rstrip s) = true.
Proof.
  destruct s as [|c s]; simpl; [done|].
  intros Hc. apply negb_true_iff in Hc. rewrite Hc. simpl. by rewrite Hc.
Qed.

Lemma rstrip_ends s : rstrip s = [] \/ last_nonspace (rstrip s) = true.
Proof.
  induction s as [|c s IH]; simpl; [by left|].
  destruct (is_space c) eqn:Hc; simpl.
  - destruct IH as [->|IH]; [by left|]. right.
    destruct (rstrip s); simpl in *; done.
  - right. destruct IH as [->|IH]; simpl; [by rewrite Hc|].
    destruct (rstrip s); simpl in *; done.
Qed.

Lemma rstrip_of_last s : last_nonspace s = true -> rstrip s = s.
Proof.
  induction s as [|c s IH]; [done|]. simpl.
  destruct s as [|d s].
  - simpl. by intros ->%negb_true_iff.
  - intros Hs. rewrite IH by done. simpl. by rewrite andb_false_r.
Qed.

(** What [strip] returns is empty, or starts and ends with code points
    that are not white space. *)
Lemma strip_ends s :
  strip s = [] \/
  (first_nonspace (strip s) = true /\ last_nonspace (strip s) = true).
Proof.
  unfold strip. destruct (lstrip_starts s) as [->|Hfirst]; [by left|].
  destruct (rstrip_ends (lstrip s)) as [?|Hlast]; [by left|].
  right. split; [by apply rstrip_starts | done].
Qed.

Lemma strip_of_trimmed s :
  s = [] \/ (first_nonspace s = true /\ last_nonspace s = true) ->
  strip s = s.
Proof.
  intros [->|[Hfirst Hlast]]; [done|]. unfold strip.
  rewrite lstrip_of_first by done. by apply rstrip_of_last.
Qed.

Lemma length_lstrip s : length (lstrip s) <= length s.
Proof.
  induction s as [|a s IH]; simpl; [done|].
  destruct (is_space a); simpl; lia.
Qed.

End StrFacts.

(** ** The two loops on a line *)

Module TurnFacts.
Import Py Py.Str.
Local Close Scope Q_scope.

Section WithTables.
Context `{UnicodeData}.

Lemma chat_turn_blank search line w :
  blank line = true ->
  ChatPy.main_turn search line w = (Chat.Continue, w).
Proof.
  intros Hb. unfold ChatPy.main_turn. by rewrite StrFacts.blank_strip.
Qed.

Lemma app_send_blank search user_q w :
  blank user_q = true -> AppPy.send search user_q w = (App.Idle, w).
Proof.
  intros Hb. unfold AppPy.send. by rewrite StrFacts.blank_strip.
Qed.

Lemma chat_turn_out_of_domain search line w :
  blank line = false ->
  lower (strip line) <> lit "exit" ->
  lower (strip line) <> lit "quit" ->
  ChatPy.is_ubuntu_question (strip line) = false ->
  ChatPy.main_turn search line w
  = (Chat.Continue, ChatPy.print ChatPy.OUT_OF_DOMAIN w).
Proof.
  intros Hb Hexit Hquit Hdom. unfold ChatPy.main_turn.
  rewrite !bool_decide_eq_false_2 by done. simpl orb. cbv iota.
  rewrite StrFacts.strip_not_blank by done. by rewrite Hdom.
Qed.

Lemma app_send_out_of_domain search line w :
  blank line = false ->
  AppPy.is_ubuntu_question line = false ->
  AppPy.send search line w
  = (App.Rerun,
     AppPy.append_message (App.bot, AppPy.OUT_OF_DOMAIN)
       (AppPy.append_message (App.user, strip line) w)).
Proof.
  intros Hb Hdom. unfold AppPy.send.
  rewrite StrFacts.strip_not_blank by done. by rewrite Hdom.
Qed.

End WithTables.
End TurnFacts.

(** ** The veto patterns on ASCII answers *)

Module NoiseFacts.
Import Py Py.Str Py.Sre.
Local Close Scope Q_scope.

Lemma ascii_cases (f : char -> bool) :
  forallb f ascii_chars = true ->
  forall c, is_ascii c = true -> f c = true.
Proof.
  intros Hall c Hc. rewrite forallb_forall in Hall. apply Hall.
  unfold ascii_chars. apply in_map_iff. exists (N.to_nat c).
  split; [apply N2Nat.id|]. apply in_seq.
  unfold is_ascii in Hc. apply N.ltb_lt in Hc. lia.
Qed.

Lemma is_ascii_lower c : is_ascii c = true -> is_ascii (ascii_lower c) = true.
Proof. apply (ascii_cases (fun c => is_ascii (ascii_lower c))). by vm_compute. Qed.

Lemma is_space_ascii_lower c :
  is_ascii c = true -> is_space (ascii_lower c) = is_space c.
Proof.
  intros Hc. apply Bool.eqb_prop. revert c Hc.
  apply (ascii_cases (fun c => Bool.eqb (is_space (ascii_lower c)) (is_space c))).
  by vm_compute.
Qed.

Lemma not_sigma c : is_ascii c = true -> (c =? 0x3A3)%N = false.
Proof.
  unfold is_ascii. intros Hc%N.ltb_lt. apply N.eqb_neq. lia.
Qed.

Lemma ascii_text_app a b :
  ascii_text (a ++ b) = ascii_text a && ascii_text b.
Proof. apply forallb_app. Qed.

Lemma lstrip_app' pre x :
  first_nonspace x = true -> lstrip (pre ++ x) = lstrip pre ++ x.
Proof.
  intros Hx. induction pre as [|c pre IH].
  - destruct x as [|a x]; [done|]. simpl in *.
    by apply negb_true_iff in Hx as ->.
  - simpl. by destruct (is_space c).
Qed.

Lemma rstrip_app' u v : rstrip v <> [] -> rstrip (u ++ v) = u ++ rstrip v.
Proof.
  intros Hv. induction u as [|c u IH]; [done|]. simpl.
  rewrite IH. destruct (u ++ rstrip v) eqn:Hu; [|by rewrite andb_false_r].
  exfalso. by destruct u.
Qed.

Lemma rstrip_after w post :
  last_nonspace w = true -> rstrip (w ++ post) = w ++ rstrip post.
Proof.
  induction w as [|c w IH]; [done|]. simpl. intros Hw.
  destruct w as [|d w]; simpl in Hw.
  - simpl. by apply negb_true_iff in Hw as ->.
  - rewrite (IH Hw). simpl. by rewrite andb_false_r.
Qed.

Lemma strip_keeps pre w post :
  first_nonspace w = true -> last_nonspace w = true ->
  strip (pre ++ w ++ post) = lstrip pre ++ w ++ rstrip post.
Proof.
  intros Hfirst Hlast. unfold strip.
  rewrite lstrip_app' by (by destruct w).
  rewrite rstrip_app'; rewrite rstrip_after by done; [done|].
  by destruct w.
Qed.

Lemma prev_after_append p a b :
  prev_after p (a ++ b) = prev_after (prev_after p a) b.
Proof.
  revert p. induction a as [|x a IH]; intros p; [done|]. apply IH.
Qed.

Lemma prev_after_start p q w : w <> [] -> prev_after p w = prev_after q w.
Proof. by destruct w. Qed.

Section WithTables.
Context `{UnicodeData}.

Lemma is_word_ascii_lower c :
  is_ascii c = true -> is_word (ascii_lower c) = is_word c.
Proof.
  intros Hc. apply Bool.eqb_prop. revert c Hc.
  apply (ascii_cases (fun c => Bool.eqb (is_word (ascii_lower c)) (is_word c))).
  by vm_compute.
Qed.

Lemma ascii_space_not_word c :
  is_ascii c = true -> is_space c = true -> is_word c = false.
Proof.
  intros Hc Hs. apply negb_true_iff. revert Hs. apply implb_true_iff.
  revert c Hc.
  apply (ascii_cases (fun c => implb (is_space c) (negb (is_word c)))).
  by vm_compute.
Qed.

(** On an ASCII text [lower] works letter by letter. *)
Lemma lower_ascii s : forall before,
  ascii_text s = true -> lower_from before s = map ascii_lower s.
Proof.
  induction s as [|c s IH]; intros before Hs; [done|].
  simpl in Hs. apply andb_true_iff in Hs as [Hc Hs]. simpl.
  rewrite not_sigma by done. unfold lower_full. rewrite Hc. simpl.
  by rewrite IH.
Qed.

Lemma word_before_map_lower pre : forall p q,
  ascii_text pre = true ->
  word_before p = word_before q ->
  word_before (prev_after p (map ascii_lower pre))
  = word_before (prev_after q pre).
Proof.
  induction pre as [|c pre IH]; intros p q Hpre Hpq; [done|]. simpl.
  simpl in Hpre. apply andb_true_iff in Hpre as [Hc Hpre].
  apply IH; [done|]. simpl. by apply is_word_ascii_lower.
Qed.

Lemma word_here_map_lower t :
  ascii_text t = true -> word_here (map ascii_lower t) = word_here t.
Proof.
  destruct t as [|c t]; [done|]. simpl.
  intros [Hc _]%andb_true_iff. by apply is_word_ascii_lower.
Qed.

Lemma word_before_lstrip' pre : forall p q,
  ascii_text pre = true ->
  word_before p = false -> word_before q = false ->
  word_before (prev_after p (lstrip pre)) = word_before (prev_after q pre).
Proof.
  induction pre as [|c pre IH]; intros p q Hpre Hp Hq; simpl; [congruence|].
  simpl in Hpre. apply andb_true_iff in Hpre as [Hc Hpre].
  destruct (is_space c) eqn:Hsp; [|done].
  apply IH; [done|done|]. by apply ascii_space_not_word.
Qed.

Lemma word_here_rstrip' post :
  ascii_text post = true -> word_here (rstrip post) = word_here post.
Proof.
  destruct post as [|c post]; [done|]. simpl.
  intros [Hc _]%andb_true_iff.
  destruct (is_space c) eqn:Hsp; simpl; [|done].
  destruct (rstrip post); simpl; [|done].
  symmetry. by apply ascii_space_not_word.
Qed.

Lemma word_here_append w t : w <> [] -> word_here (w ++ t) = word_here w.
Proof. by destruct w. Qed.

(** *** The matcher on the two shapes of pattern *)

Lemma match_lit_here l : forall prev rest k,
  match_lit false l prev (l ++ rest) k = k (prev_after prev l) rest.
Proof.
  induction l as [|a l IH]; intros prev rest k; [done|]. simpl.
  rewrite N.eqb_refl. apply IH.
Qed.

Lemma match_lit_prefix l : forall prev s k,
  is_Some (match_lit false l prev s k) -> exists rest, s = l ++ rest.
Proof.
  induction l as [|a l IH]; intros prev s k Hm; [by exists s|].
  simpl in Hm. destruct s as [|b s]; [by destruct Hm|].
  destruct (b =? a)%N eqn:Hab; [|by destruct Hm].
  apply N.eqb_eq in Hab as ->.
  destruct (IH _ _ _ Hm) as [rest ->]. by exists rest.
Qed.

Lemma search_from_found r pre : forall prev post,
  is_Some (match_at false r (prev_after prev pre) post) ->
  search_from false r prev (pre ++ post) = true.
Proof.
  induction pre as [|c pre IH]; intros prev post Hm.
  - simpl in *. destruct post; simpl; by destruct Hm as [x ->].
  - simpl. destruct (match_at false r prev _); [done|]. by apply IH.
Qed.

Lemma search_from_finds r s : forall prev,
  search_from false r prev s = true ->
  exists pre post,
    s = pre ++ post /\ is_Some (match_at false r (prev_after prev pre) post).
Proof.
  induction s as [|c s IH]; intros prev Hs; simpl in Hs.
  - destruct (match_at false r prev []) eqn:Hm; [|done].
    exists [], []. simpl. by rewrite Hm.
  - destruct (match_at false r prev (c :: s)) eqn:Hm.
    + exists [], (c :: s). simpl. by rewrite Hm.
    + destruct (IH _ Hs) as (pre & post & -> & Hpost).
      by exists (c :: pre), post.
Qed.

Lemma match_at_bounded w prev s :
  is_Some (match_at false (Re.bounded w) prev s) <->
  xorb (word_before prev) (word_here s) = true /\
  exists rest, s = lit w ++ rest /\
    xorb (word_before (prev_after prev (lit w))) (word_here rest) = true.
Proof.
  unfold match_at, Re.bounded. simpl. split.
  - destruct (xorb (word_before prev) (word_here s)); [|by intros []].
    intros Hm. split; [done|].
    destruct (match_lit_prefix _ _ _ _ Hm) as [rest ->]. exists rest.
    split; [done|]. rewrite match_lit_here in Hm.
    destruct (xorb _ _); [done | by destruct Hm].
  - intros (-> & rest & -> & Hend). by rewrite match_lit_here, Hend.
Qed.

Lemma rep_accepts cl : forall prev s,
  is_Some (rep cl (fun _ rest => Some rest) prev s).
Proof.
  intros prev s. revert prev.
  induction s as [|c s IH]; intros prev; simpl; [done|].
  destruct (in_class cl c); [|done].
  by destruct (rep cl _ (Some c) s).
Qed.

Lemma match_at_hashtag prev s :
  is_Some (match_at false Re.hashtag prev s) <->
  exists c t, s = 35%N :: c :: t /\ is_word c = true.
Proof.
  unfold match_at, Re.hashtag. cbn [rmatch].
  change (lit "#") with [35%N]. split.
  - destruct s as [|a s]; [by intros []|]. cbn [match_lit char_eq].
    destruct (a =? 35)%N eqn:Ha; [|by intros []].
    apply N.eqb_eq in Ha as ->.
    destruct s as [|c t]; [by intros []|]. cbn [in_class].
    destruct (is_word c) eqn:Hc; [|by intros []]. by exists c, t.
  - intros (c & t & -> & Hc). cbn [match_lit char_eq in_class].
    rewrite N.eqb_refl, Hc. apply rep_accepts.
Qed.

Lemma search_is_bounded w s :
  lit w <> [] ->
  search (Re.bounded w) s = true <-> occurs_bounded (lit w) s.
Proof.
  intros Hw. unfold search. split.
  - intros (pre & post & -> & Hm)%search_from_finds.
    apply match_at_bounded in Hm as (Hstart & rest & -> & Hend).
    exists pre, rest. split; [done|].
    rewrite word_here_append in Hstart by done. split; [done|].
    by rewrite (prev_after_start None (prev_after None pre)).
  - intros (pre & post & -> & Hstart & Hend).
    apply search_from_found, match_at_bounded.
    rewrite word_here_append by done. split; [done|]. exists post.
    split; [done|].
    by rewrite (prev_after_start (prev_after None pre) None).
Qed.

Lemma search_is_hashtag s :
  search Re.hashtag s = true <-> occurs_hashtag s.
Proof.
  unfold search. split.
  - intros (pre & post & -> & Hm)%search_from_finds.
    apply match_at_hashtag in Hm as (c & t & -> & Hc). by exists pre, c, t.
  - intros (pre & c & t & -> & Hc).
    apply search_from_found, match_at_hashtag. by exists c, t.
Qed.

(** *** Normalising an ASCII text keeps an occurrence *)

Lemma occurs_bounded_kept w s :
  ascii_text s = true ->
  map ascii_lower w = w ->
  first_nonspace w = true -> last_nonspace w = true ->
  occurs_bounded w s -> occurs_bounded w (strip (lower s)).
Proof.
  intros Hs Hlow Hfirst Hlast (pre & post & -> & Hstart & Hend).
  unfold lower. rewrite lower_ascii by done.
  rewrite !ascii_text_app in Hs.
  apply andb_true_iff in Hs as [Hpre [Hw Hpost]%andb_true_iff].
  exists (lstrip (map ascii_lower pre)), (rstrip (map ascii_lower post)).
  rewrite !map_app, Hlow. split; [by apply strip_keeps|].
  assert (ascii_text (map ascii_lower pre) = true) as Hpre'.
  { unfold ascii_text in *. rewrite forallb_forall in Hpre.
    apply forallb_forall. intros x (y & <- & Hy)%in_map_iff.
    by apply is_ascii_lower, Hpre. }
  assert (ascii_text (map ascii_lower post) = true) as Hpost'.
  { unfold ascii_text in *. rewrite forallb_forall in Hpost.
    apply forallb_forall. intros x (y & <- & Hy)%in_map_iff.
    by apply is_ascii_lower, Hpost. }
  rewrite word_here_rstrip', word_here_map_lower by done. split; [|done].
  rewrite (word_before_lstrip' _ None None) by done.
  by rewrite (word_before_map_lower _ None None).
Qed.

Lemma occurs_hashtag_kept s :
  ascii_text s = true ->
  occurs_hashtag s -> occurs_hashtag (strip (lower s)).
Proof.
  intros Hs (pre & c & post & -> & Hc).
  unfold lower. rewrite lower_ascii by done.
  rewrite ascii_text_app in Hs. apply andb_true_iff in Hs as [Hpre Hs].
  cbn [ascii_text forallb] in Hs.
  apply andb_true_iff in Hs as [_ [Hca Hpost]%andb_true_iff].
  exists (lstrip (map ascii_lower pre)), (ascii_lower c),
    (rstrip (map ascii_lower post)).
  rewrite is_word_ascii_lower by done. split; [|done].
  rewrite map_app. simpl.
  assert (is_space (ascii_lower c) = false) as Hsp.
  { rewrite is_space_ascii_lower by done.
    destruct (is_space c) eqn:Hspace; [|done].
    apply ascii_space_not_word in Hspace; [congruence|done]. }
  change (ascii_lower 35%N :: ascii_lower c :: map ascii_lower post)
    with ([35%N; ascii_lower c] ++ map ascii_lower post).
  rewrite strip_keeps; [done|done|]. simpl. by rewrite Hsp.
Qed.

(** A match in an ASCII answer as it is written is a match in the answer
    as the scorer reads it. *)
Lemma ascii_search_normalised r s :
  noise_pattern r -> ascii_text s = true ->
  search r s = true -> search r (strip (lower s)) = true.
Proof.
  intros [-> | (w & -> & Hascii & Hlow & Hfirst & Hlast)] Hs.
  - rewrite !search_is_hashtag. by apply occurs_hashtag_kept.
  - rewrite !search_is_bounded by (by destruct (lit w)).
    by apply occurs_bounded_kept.
Qed.

End WithTables.

(** Every pattern of the two veto lists has one of the two shapes. *)
Lemma veto_lists_are_noise (s : surface) (pat : Re.regex) :
  pat ∈ BAD_PATTERNS_of s -> noise_pattern pat.
Proof.
  intros Hpat.
  destruct s;
    unfold BAD_PATTERNS_of, Chat.BAD_PATTERNS, App.BAD_PATTERNS in Hpat;
    repeat (apply elem_of_cons in Hpat as [->|Hpat];
            [first [by left | right; eexists; by repeat split]|]);
    by apply elem_of_nil in Hpat.
Qed.

End NoiseFacts.

(** ** White space in the corpus tools *)

Module CorpusFacts.
Import Py Py.Float Py.Str Py.Corpus.
Local Close Scope Q_scope.

Section WithTables.
Context `{UnicodeData}.

Lemma rep_space_rest prev s :
  Sre.rep Re.CSpace (fun _ rest => Some rest) prev s = Some (lstrip s).
Proof.
  revert prev. induction s as [|a s IH]; intros prev; [done|]. simpl.
  destruct (is_space a); [|done]. by rewrite IH.
Qed.

Lemma match_space_run prev s :
  Sre.match_at false (Re.RPlus Re.CSpace) prev s
  = match s with
    | a :: s' => if is_space a then Some (lstrip s') else None
    | [] => None
    end.
Proof.
  unfold Sre.match_at. destruct s as [|a s]; [done|]. simpl.
  destruct (is_space a); [|done]. apply rep_space_rest.
Qed.

(** The substitution meets [squeeze]: outside a run with no code point to
    skip, inside a run with the rest of the run to skip. *)
Lemma sub_space_squeeze s : forall prev,
  Sre.sub_from false (Re.RPlus Re.CSpace) (lit " ") prev s 0
  = squeeze false s /\
  Sre.sub_from false (Re.RPlus Re.CSpace) (lit " ") prev s
    (length s - length (lstrip s))
  = squeeze true s.
Proof.
  induction s as [|a s IH]; intros prev; [done|].
  assert (Sre.sub_from false (Re.RPlus Re.CSpace) (lit " ") prev (a :: s) 0
          = squeeze false (a :: s)) as Hout.
  { cbn [Sre.sub_from squeeze]. rewrite match_space_run.
    destruct (is_space a).
    - unfold Sre.consumed, len. cbn [length].
      pose proof (StrFacts.length_lstrip s).
      replace (S (length s) - length (lstrip s))
        with (S (length s - length (lstrip s))) by lia.
      by destruct (IH (Some a)) as [_ ->].
    - by destruct (IH (Some a)) as [-> _]. }
  split; [done|]. cbn [lstrip squeeze]. destruct (is_space a) eqn:Ha.
  - cbn [length]. pose proof (StrFacts.length_lstrip s).
    replace (S (length s) - length (lstrip s))
      with (S (length s - length (lstrip s))) by lia.
    cbn [Sre.sub_from]. by destruct (IH (Some a)) as [_ ->].
  - rewrite Nat.sub_diag, Hout. cbn [squeeze]. by rewrite Ha.
Qed.

Lemma collapse_is_squeeze s : collapse_spaces s = squeeze false s.
Proof.
  unfold collapse_spaces, Sre.sub.
  by destruct (sub_space_squeeze s None) as [-> _].
Qed.

Lemma normalize_is_squeeze s : normalize s = squeeze false (strip s).
Proof. apply collapse_is_squeeze. Qed.

End WithTables.

Lemma squeeze_single_spaced s : forall b,
  single_spaced b (squeeze b s) = true.
Proof.
  induction s as [|a s IH]; intros b; [done|]. simpl.
  destruct (is_space a) eqn:Ha.
  - destruct b; [apply IH|]. simpl. apply IH.
  - simpl. rewrite Ha. apply IH.
Qed.

Lemma single_spaced_any s : forall b,
  single_spaced b s = true -> single_spaced false s = true.
Proof.
  destruct s as [|a s]; intros b; [done|]. simpl.
  destruct (is_space a); [|done].
  intros [[-> _]%andb_true_iff ->]%andb_true_iff. done.
Qed.

Lemma squeeze_of_single_spaced s : forall b,
  single_spaced b s = true -> squeeze b s = s.
Proof.
  induction s as [|a s IH]; intros b; [done|]. simpl.
  destruct (is_space a).
  - intros [[Ha Hb]%andb_true_iff Hs]%andb_true_iff.
    apply N.eqb_eq in Ha as ->. apply negb_true_iff in Hb as ->.
    by rewrite IH.
  - intros Hs. by rewrite IH.
Qed.

Lemma squeeze_ends s : forall b,
  last_nonspace s = true -> last_nonspace (squeeze b s) = true.
Proof.
  induction s as [|a s IH]; intros b Hlast; [done|].
  assert (s = [] \/ last_nonspace s = true) as [->|Hs].
  { destruct s; [by left | by right]. }
  - simpl in *. apply negb_true_iff in Hlast. rewrite Hlast. simpl.
    by rewrite Hlast.
  - assert (forall b' x, last_nonspace (x :: squeeze b' s) = true)
      as Hcons.
    { intros b' x. specialize (IH b' Hs). simpl.
      by destruct (squeeze b' s). }
    cbn [squeeze]. destruct (is_space a); [destruct b|];
      [by apply IH | apply Hcons | apply Hcons].
Qed.

Lemma squeeze_starts s :
  first_nonspace s = true -> first_nonspace (squeeze false s) = true.
Proof.
  destruct s as [|a s]; [done|]. simpl. intros Ha.
  apply negb_true_iff in Ha. rewrite Ha. simpl. by rewrite Ha.
Qed.

Lemma single_spaced_start s :
  first_nonspace s = true -> single_spaced true s = single_spaced false s.
Proof.
  destruct s as [|a s]; [done|]. simpl. by intros ->%negb_true_iff.
Qed.

Lemma tidy_ends s :
  tidy s = true ->
  single_spaced false s = true /\
  (s = [] \/ (first_nonspace s = true /\ last_nonspace s = true)).
Proof.
  unfold tidy. intros [Hs Hend]%andb_true_iff.
  split; [by eapply single_spaced_any|].
  destruct s as [|a s]; [by left|]. right. simpl in Hend. split; [|done].
  simpl in *. destruct (is_space a); [|done].
  by rewrite andb_false_r in Hs.
Qed.

Lemma ends_tidy s :
  single_spaced false s = true ->
  s = [] \/ (first_nonspace s = true /\ last_nonspace s = true) ->
  tidy s = true.
Proof.
  intros Hs [->|[Hfirst Hlast]]; [done|]. unfold tidy.
  rewrite single_spaced_start, Hs, Hlast by done. apply orb_true_r.
Qed.

Lemma squeeze_strip_is_tidy s : tidy (squeeze false (strip s)) = true.
Proof.
  apply ends_tidy; [apply squeeze_single_spaced|].
  destruct (StrFacts.strip_ends s) as [->|[Hfirst Hlast]]; [by left|].
  right. split; [by apply squeeze_starts|].
  by apply squeeze_ends.
Qed.

Lemma squeeze_strip_of_tidy s : tidy s = true -> squeeze false (strip s) = s.
Proof.
  intros [Hs Hshape]%tidy_ends.
  rewrite StrFacts.strip_of_trimmed by done. by apply squeeze_of_single_spaced.
Qed.

End CorpusFacts.

(** ** The tests of the corpus tools *)

Module UtteranceFacts.
Import Py Py.Float Py.Str Py.Corpus.
Local Close Scope Q_scope.

Lemma bad_short_length w : w ∈ BAD_SHORT -> length w < 8.
Proof.
  intros Hw. unfold BAD_SHORT, Preprocess.BAD_SHORT in Hw.
  cbn [map] in Hw.
  repeat (apply elem_of_cons in Hw as [->|Hw]; [vm_compute; lia|]).
  by apply elem_of_nil in Hw.
Qed.

Lemma count_positive needle s :
  needle <> [] ->
  (1 <=? count_from needle s 0) = contains needle s.
Proof.
  intros Hne. induction s as [|a s IH].
  - by destruct needle.
  - cbn [count_from contains].
    destruct (startswith needle (a :: s)); [done|]. by rewrite IH.
Qed.

Section WithTables.
Context `{UnicodeData}.

Lemma is_bad_utterance_accepts s :
  is_bad_utterance s = false <->
  8 <= len (strip (lower s)) /\
  ltb (alnum_ratio (strip (lower s))) f0_5 = false.
Proof.
  unfold is_bad_utterance, Preprocess.MIN_LEN_Q.
  destruct s as [|c s]; [split; [done|]; intros [Hlen _]; simpl in Hlen; lia|].
  cbn [is_empty]. set (low := strip (lower (c :: s))).
  destruct (bool_decide (low ∈ BAD_SHORT)) eqn:Hshort.
  - apply bool_decide_eq_true in Hshort. apply bad_short_length in Hshort.
    split; [done|]. unfold len. lia.
  - destruct (len low <? 8) eqn:Hlen.
    + apply Nat.ltb_lt in Hlen. split; [done|]. lia.
    + apply Nat.ltb_ge in Hlen.
      destruct (ltb (alnum_ratio low) f0_5); split; try done; by intros [_ ?].
Qed.

Lemma looks_like_noise_passes text :
  looks_like_noise text = false <->
  contains (lit "http") (lower text) = false /\
  ltb (alnum_ratio (lower text)) f0_55 = false.
Proof.
  unfold looks_like_noise, count. rewrite count_positive by done.
  destruct (contains (lit "http") (lower text)); [split; [done|by intros [? _]]|].
  destruct (ltb (alnum_ratio (lower text)) f0_55); split; try done.
  by intros [_ ?].
Qed.

End WithTables.
End UtteranceFacts.

(** ** The properties of the specification *)

(** C1, at an input where it fails on the web surface.  The index returns
    one candidate of similarity 0.5 whose answer is "ok": its total is 0,
    under the threshold 1.10.  The command-line loop prints the request for
    diagnostics; the handler of the Send button has no gate and stores the
    formatted answer as the reply. *)
Theorem send_answers_below_threshold :
  let search := fun _ : string => [mkResult 0.5 "wifi keeps dropping" "ok"] in
  let q := "wifi not working" in
  exists best ranked,
    App.pick_best (search q) = (Some best, ranked) /\
    total best < Chat.MIN_TOTAL_SCORE /\
    answer (hit best) = "ok" /\
    App.send search q (App.mkWorld [] [])
    = (App.Rerun,
       App.mkWorld [(App.user, q); (App.bot, App.format_support_answer "ok")]
         [ESearch q; ERerank; EFormat]) /\
    Chat.main_turn search q (Chat.mkWorld [] [])
    = (Chat.Continue, Chat.mkWorld Chat.LOW_CONFIDENCE [ESearch q; ERerank]).
Proof.
  eexists _, _. split; [vm_compute; reflexivity|].
  split; [done|]. split; [done|]. split; vm_compute; reflexivity.
Qed.




(** C3: when a pattern of the veto list matches the answer as the scorer
    reads it, lowercased and trimmed, the quality is exactly -2.0,
    whatever the hints, the length and the phrasing, and the total of the
    candidate is its similarity minus 2.0.  For an ASCII answer a match in
    the answer as it is written is enough: it is still there after
    [lower] and [strip]. *)
Theorem noise_pattern_vetoes `{Py.Str.UnicodeData}
    (s : surface) (ans : Py.Str.str) (pat : Re.regex) :
  pat ∈ BAD_PATTERNS_of s ->
  Py.Sre.search pat (Py.Str.strip (Py.Str.lower ans)) = true \/
  (Py.Str.ascii_text ans = true /\ Py.Sre.search pat ans = true) ->
  Py.quality_of s ans = Py.Float.neg Py.Float.f2_0 /\
  forall r, Py.answer r = ans ->
    Py.qual (Py.score_result (Py.quality_of s) r)
    = Py.Float.neg Py.Float.f2_0 /\
    Py.total (Py.score_result (Py.quality_of s) r)
    = Py.Float.sub (Py.sim r) Py.Float.f2_0.
Proof.
  intros Hpat Hmatch.
  assert (Py.Sre.search pat (Py.Str.strip (Py.Str.lower ans)) = true)
    as Hnorm.
  { destruct Hmatch as [|[Hascii Hraw]]; [done|].
    by apply NoiseFacts.ascii_search_normalised;
      [eapply NoiseFacts.veto_lists_are_noise| |]. }
  assert (Py.quality_of s ans = Py.Float.neg Py.Float.f2_0) as Hq.
  { destruct s; apply float_quality_vetoed, float_vetoed_iff; by exists pat. }
  split; [done|]. intros r <-. simpl. rewrite Hq.
  split; [done|]. apply FloatFacts.add_neg.
Qed.

Lemma noise_pattern_vetoes_witness :
  let ans := Py.Str.lit "Try sudo apt-get update, see #été" in
  Py.quality_of (H := Py.Latin1.tables) Web ans
  = Py.Float.neg Py.Float.f2_0 /\
  forall r, Py.answer r = ans ->
    Py.qual (Py.score_result (Py.quality_of (H := Py.Latin1.tables) Web) r)
    = Py.Float.neg Py.Float.f2_0 /\
    Py.total (Py.score_result (Py.quality_of (H := Py.Latin1.tables) Web) r)
    = Py.Float.sub (Py.sim r) Py.Float.f2_0.
Proof.
  apply (noise_pattern_vetoes (H := Py.Latin1.tables) Web _ Re.hashtag).
  - left.
  - left. vm_compute. reflexivity.
Defined.

(** C4: the commands of "Run apt-get update, then reboot." are
    "sudo apt-get update" and "sudo reboot", in this order. *)
Theorem extract_commands_run_then_reboot (s : surface) :
  extract_commands_of s "Run apt-get update, then reboot."
  = ["sudo apt-get update"; "sudo reboot"].
Proof. destruct s; vm_compute; reflexivity. Qed.

(** C5: [extract_commands] returns at most 8 strings, no string twice,
    each at the place of its first occurrence among the collected
    commands; below 8 strings none of the collected commands is lost. *)
Theorem extract_commands_bounded_unique (s : surface) (text : string) :
  let out := extract_commands_of s text in
  let commands := Extract.collect (PyStr.strip text) in
  (length out <= 8)%nat /\
  NoDup out /\
  first_occurrence_order commands out /\
  ((length out < 8)%nat -> forall c, c ∈ commands -> c ∈ out).
Proof.
  assert (extract_commands_of s text = Extract.extract_commands text) as ->
    by (by destruct s).
  rewrite ExtractFacts.extract_commands_eq. cbv zeta.
  set (commands := Extract.collect (PyStr.strip text)).
  split; [rewrite length_take; lia|].
  split; [eapply sublist_NoDup;
            [apply ExtractFacts.unique_of_NoDup | apply sublist_take]|].
  split; [apply ExtractFacts.first_occurrence_order_take,
            ExtractFacts.unique_of_order|].
  intros Hlen c Hc. rewrite length_take in Hlen.
  rewrite take_ge by lia. by apply ExtractFacts.unique_of_elem.
Qed.

(** C6: a single clean command comes back as it is. *)
Theorem extract_commands_clean_command (s : surface) :
  extract_commands_of s "sudo apt-get update" = ["sudo apt-get update"].
Proof. destruct s; vm_compute; reflexivity. Qed.



(** C8: a line that is empty or holds only white space, in the sense of
    [str.isspace], is passed over by both surfaces: nothing is printed or
    stored, nothing is searched, reranked or formatted; the state after
    the turn is the state before it. *)
Theorem blank_query_ignored `{Py.Str.UnicodeData}
    (search : Py.Str.str -> list Py.result) (line : Py.Str.str) :
  Py.Str.blank line = true ->
  (forall w, Py.ChatPy.main_turn search line w = (Chat.Continue, w)) /\
  (forall w, Py.AppPy.send search line w = (App.Idle, w)).
Proof.
  intros Hb. split; intros w.
  - by apply TurnFacts.chat_turn_blank.
  - by apply TurnFacts.app_send_blank.
Qed.

Lemma blank_query_ignored_witness :
  let search := fun _ : Py.Str.str => [Py.PyData.candidate 0.5 "sudo apt-get update"] in
  let line := Py.PyData.NBSP :: Py.Str.lit "   " ++ [Py.PyData.IDEOGRAPHIC_SPACE] in
  (forall w, Py.ChatPy.main_turn (H := Py.Latin1.tables) search line w
             = (Chat.Continue, w)) /\
  (forall w, Py.AppPy.send (H := Py.Latin1.tables) search line w
             = (App.Idle, w)).
Proof.
  apply (blank_query_ignored (H := Py.Latin1.tables)). reflexivity.
Defined.

(** C9: whatever the best answer, and whether or not it holds commands,
    the formatted response contains the block of the four diagnostic
    lines; it ends with it. *)
Theorem format_contains_diagnostic_block (s : surface)
    (user_q best_answer : string) :
  PyStr.contains DIAGNOSTIC_BLOCK (format_of s user_q best_answer) = true /\
  exists pre, format_of s user_q best_answer = pre +:+ DIAGNOSTIC_BLOCK.
Proof.
  destruct s; (split; [apply format_with_contains | apply format_with_ends]).
Qed.

(** C10: on the empty list [pick_best] returns no best candidate and an
    empty ranking. *)
Theorem pick_best_empty (s : surface) : pick_best_of s [] = (None, []).
Proof. by destruct s. Qed.

(** ** Further properties of the code *)

(** *** Letter case and margins *)

Module PyStrMore.
Import PyStr PyStrFacts.

Lemma lower_char_idem c : lower_char (lower_char c) = lower_char c.
Proof. by destruct c as [[] [] [] [] [] [] [] []]. Qed.

Lemma is_space_lower c : is_space (lower_char c) = is_space c.
Proof. by destruct c as [[] [] [] [] [] [] [] []]. Qed.

Lemma lower_idem s : lower (lower s) = lower s.
Proof.
  induction s as [|c s IH]; simpl; [done|]. by rewrite lower_char_idem, IH.
Qed.

Lemma lower_lstrip s : lower (lstrip s) = lstrip (lower s).
Proof.
  induction s as [|c s IH]; simpl; [done|]. rewrite is_space_lower.
  by destruct (is_space c).
Qed.

Lemma is_empty_lower s : is_empty (lower s) = is_empty s.
Proof. by destruct s. Qed.

Lemma lower_rstrip s : lower (rstrip s) = rstrip (lower s).
Proof.
  induction s as [|c s IH]; simpl; [done|].
  rewrite is_space_lower, <- IH, is_empty_lower.
  by destruct (is_space c && is_empty (rstrip s)).
Qed.

Lemma lower_strip_comm s : lower (strip s) = strip (lower s).
Proof. unfold strip. by rewrite lower_rstrip, lower_lstrip. Qed.

Lemma rstrip_idem s : rstrip (rstrip s) = rstrip s.
Proof.
  induction s as [|c s IH]; simpl; [done|].
  destruct (is_space c && is_empty (rstrip s)) eqn:Hc; simpl; [done|].
  by rewrite IH, Hc.
Qed.

Lemma first_nonspace_lstrip s : first_nonspace s = true -> lstrip s = s.
Proof.
  destruct s as [|c s]; simpl; [done|]. by intros ->%negb_true_iff.
Qed.

Lemma lstrip_first s : lstrip s = "" \/ first_nonspace (lstrip s) = true.
Proof.
  induction s as [|c s IH]; simpl; [by left|].
  destruct (is_space c) eqn:Hc; [done|]. right. simpl. by rewrite Hc.
Qed.

Lemma rstrip_first s :
  first_nonspace s = true -> first_nonspace (rstrip s) = true.
Proof.
  destruct s as [|c s]; simpl; [done|].
  intros Hc. apply negb_true_iff in Hc. rewrite Hc. simpl. by rewrite Hc.
Qed.

Lemma rstrip_last_nonspace s : rstrip s = "" \/ last_nonspace (rstrip s) = true.
Proof.
  induction s as [|c s IH]; simpl; [by left|].
  destruct (is_space c) eqn:Hc; simpl.
  - destruct IH as [->|IH]; [by left|]. right.
    destruct (rstrip s); simpl in *; [done|]. done.
  - right. destruct IH as [->|IH]; simpl; [by rewrite Hc|].
    destruct (rstrip s); simpl in *; [done|]. done.
Qed.

(** What [strip] returns is empty, or starts and ends with characters
    that are not white space. *)
Lemma strip_shape s :
  strip s = "" \/
  (first_nonspace (strip s) = true /\ last_nonspace (strip s) = true).
Proof.
  unfold strip. destruct (lstrip_first s) as [->|Hfirst]; [by left|].
  destruct (rstrip_last_nonspace (lstrip s)) as [?|Hlast]; [by left|].
  right. split; [by apply rstrip_first | done].
Qed.

Lemma last_nonspace_rstrip s : last_nonspace s = true -> rstrip s = s.
Proof.
  intros Hs. rewrite <- (app_empty_r s) at 1.
  rewrite ReFacts.rstrip_last by done. simpl. apply app_empty_r.
Qed.

Lemma strip_fixed s :
  s = "" \/ (first_nonspace s = true /\ last_nonspace s = true) ->
  strip s = s.
Proof.
  intros [->|[Hfirst Hlast]]; [done|]. unfold strip.
  rewrite first_nonspace_lstrip by done. by apply last_nonspace_rstrip.
Qed.

Lemma strip_idem s : strip (strip s) = strip s.
Proof. apply strip_fixed, strip_shape. Qed.
End PyStrMore.

(** *** The quality scorer *)

Section ScorerBounds.
Variable BAD_PATTERNS : list Re.regex.
Variable GOOD_HINTS : list string.
Variable STEP_WORDS : list string.

Abbreviation quality' := (quality_score BAD_PATTERNS GOOD_HINTS STEP_WORDS).

Lemma hint_score_le a score :
  hint_score GOOD_HINTS a score
  <= score + 0.25 * inject_Z (Z.of_nat (length GOOD_HINTS)).
Proof.
  unfold hint_score. revert score.
  induction GOOD_HINTS as [|w ws IH]; intros score.
  - change (inject_Z (Z.of_nat (length (@nil string)))) with 0.
    cbn [fold_left]. lra.
  - assert (inject_Z (Z.of_nat (length (w :: ws)))
            == inject_Z (Z.of_nat (length ws)) + 1) as ->.
    { simpl length. rewrite Nat2Z.inj_succ, <- Z.add_1_r.
      by rewrite inject_Z_plus. }
    simpl fold_left. eapply Qle_trans; [apply IH|].
    destruct (PyStr.contains w a); lra.
Qed.

Lemma length_score_le L score : length_score L score <= score + 0.5.
Proof.
  unfold length_score.
  destruct (_ && _); [|destruct (_ <? _)%nat; [|destruct (_ <? _)%nat]]; lra.
Qed.

Lemma step_score_le a score : step_score STEP_WORDS a score <= score + 0.3.
Proof. unfold step_score. destruct (existsb _ _); lra. Qed.

Lemma quality_score_range ans :
  let a := PyStr.strip (PyStr.lower ans) in
  (vetoed BAD_PATTERNS a = true /\ quality' ans = -2.0) \/
  (vetoed BAD_PATTERNS a = false /\
   -0.5 <= quality' ans /\
   quality' ans <= 0.25 * inject_Z (Z.of_nat (length GOOD_HINTS)) + 0.8).
Proof.
  intros a. unfold quality_score. fold a.
  destruct (vetoed BAD_PATTERNS a); [by left|]. right. split; [done|].
  pose proof (hint_score_ge GOOD_HINTS a 0.0).
  pose proof (hint_score_le a 0.0).
  pose proof (length_score_ge (PyStr.len a) (hint_score GOOD_HINTS a 0.0)).
  pose proof (length_score_le (PyStr.len a) (hint_score GOOD_HINTS a 0.0)).
  pose proof (step_score_ge STEP_WORDS a
                (length_score (PyStr.len a) (hint_score GOOD_HINTS a 0.0))).
  pose proof (step_score_le a
                (length_score (PyStr.len a) (hint_score GOOD_HINTS a 0.0))).
  split; lra.
Qed.

Lemma quality_score_lower ans : quality' (PyStr.lower ans) = quality' ans.
Proof. unfold quality_score. by rewrite PyStrMore.lower_idem. Qed.

Lemma quality_score_strip ans : quality' (PyStr.strip ans) = quality' ans.
Proof.
  unfold quality_score.
  by rewrite PyStrMore.lower_strip_comm, PyStrMore.strip_idem.
Qed.
End ScorerBounds.

(** X1: the quality of an answer is -2.0 when a pattern of the veto list
    matches, and otherwise one of the doubles between -0.5 and the sum of
    all bonuses (8.3 in chat.py, 6.3 in app.py): a vetoed answer scores
    strictly below every other one, and no quality is NaN. *)
Theorem quality_vetoed_or_in_range `{Py.Str.UnicodeData}
    (s : surface) (ans : Py.Str.str) :
  let a := Py.Str.strip (Py.Str.lower ans) in
  (Py.vetoed (BAD_PATTERNS_of s) a = true /\
   Py.quality_of s ans = Py.Float.neg Py.Float.f2_0) \/
  (Py.vetoed (BAD_PATTERNS_of s) a = false /\
   Py.Float.leb (Py.Float.neg Py.Float.f0_5) (Py.quality_of s ans) = true /\
   Py.Float.leb (Py.quality_of s ans) (Py.max_quality s) = true /\
   Py.Float.ltb (Py.Float.neg Py.Float.f2_0) (Py.quality_of s ans) = true).
Proof.
  intros a.
  destruct (Py.vetoed (BAD_PATTERNS_of s) a) eqn:Hveto.
  { left. split; [done|]. destruct s; by apply float_quality_vetoed. }
  right. split; [done|].
  assert (Py.Float.leb (Py.Float.neg Py.Float.f0_5) (Py.quality_of s ans)
          = true /\
          Py.Float.leb (Py.quality_of s ans) (Py.max_quality s) = true)
    as [Hlo Hhi].
  { destruct s; simpl.
    - unfold Py.ChatPy.answer_quality_score.
      rewrite float_quality_value by done.
      apply (RangeFacts.value_range 30); [by left|].
      apply (hints_in_length Py.ChatPy.GOOD_HINTS).
    - unfold Py.AppPy.answer_quality.
      rewrite float_quality_value by done.
      apply (RangeFacts.value_range 22); [by right|].
      apply (hints_in_length Py.AppPy.GOOD_HINTS). }
  split; [done|]. split; [done|].
  assert (Py.Float.is_nan (Py.quality_of s ans) = false) as Hnum
    by (by destruct (Py.quality_of s ans)).
  apply FloatFacts.ltb_not_ltb_trans with (y := Py.Float.neg Py.Float.f0_5);
    [done| |done].
  rewrite FloatFacts.leb_not_ltb in Hlo by done. by apply negb_true_iff.
Qed.

(** X2: the quality of an answer depends neither on the case of its
    letters nor on white space around it. *)
Theorem quality_ignores_case_and_margins (s : surface) (ans : string) :
  quality_of s (PyStr.lower ans) = quality_of s ans /\
  quality_of s (PyStr.strip ans) = quality_of s ans.
Proof.
  destruct s; (split; [apply quality_score_lower | apply quality_score_strip]).
Qed.

(** *** Texts inside texts *)

Module InfixFacts.
Import PyStr PyStrFacts.

Lemma startswith_inv n : forall s,
  startswith n s = true -> exists post, s = n +:+ post.
Proof.
  induction n as [|a n IH]; intros s Hs; [by exists s|].
  destruct s as [|b s]; simpl in Hs; [done|].
  apply andb_true_iff in Hs as [Hab Hs]. apply bool_decide_eq_true in Hab.
  subst b. destruct (IH _ Hs) as [post ->]. by exists post.
Qed.

Lemma contains_inv n s :
  contains n s = true -> exists pre post, s = pre +:+ n +:+ post.
Proof.
  induction s as [|c s IH]; simpl; intros Hs.
  - rewrite orb_false_r in Hs. apply startswith_inv in Hs as [post ->].
    by exists "", post.
  - apply orb_true_iff in Hs as [Hs|Hs].
    + apply startswith_inv in Hs as [post ->]. by exists "", post.
    + destruct (IH Hs) as (pre & post & ->). by exists (String c pre), post.
Qed.


(** A text that holds [a +:+ b] holds [a]. *)
Lemma contains_shorter a b s :
  contains (a +:+ b) s = true -> contains a s = true.
Proof.
  intros (pre & post & ->)%contains_inv.
  rewrite app_assoc. apply contains_app.
Qed.


Lemma lstrip_suffix s : exists pre, s = pre +:+ lstrip s.
Proof.
  induction s as [|c s [pre IH]]; [by exists ""|]. simpl.
  destruct (is_space c); [|by exists ""].
  exists (String c pre). app_step. by rewrite <- IH.
Qed.




(** A text without white space at its ends that stands in [s] stands
    in [s.strip()]. *)
Lemma contains_strip n s :
  first_nonspace n = true -> last_nonspace n = true ->
  contains n s = true -> contains n (strip s) = true.
Proof.
  intros Hfirst Hlast (pre & post & ->)%contains_inv.
  rewrite ReFacts.strip_around by done. apply contains_app.
Qed.

Lemma existsb_contains_incl (l l' : list string) t :
  (forall w, In w l -> exists h rest, w = h +:+ rest /\ In h l') ->
  existsb (fun w => contains w t) l = true ->
  existsb (fun h => contains h t) l' = true.
Proof.
  intros Hincl (w & Hw & Hc)%existsb_exists.
  destruct (Hincl w Hw) as (h & rest & -> & Hh).
  apply existsb_exists. exists h. split; [done|]. by eapply contains_shorter.
Qed.
End InfixFacts.

(** *** The intent gate and the corpus filter *)

(** Every hint decides alone, so a hint with a longer spelling in the
    list, or asked for a second time, changes nothing. *)
Ltac hint_in_list :=
  match goal with
  | H : In _ _ |- _ =>
      simpl in H;
      repeat (destruct H as [<-|H];
              [first [ by (exists "driver", "s"; split; [done | simpl; tauto])
                     | eexists _, ""; split;
                       [symmetry; apply PyStrFacts.app_empty_r | simpl; tauto] ]
              |]);
      destruct H
  end.

Lemma chat_hint_is_app_hint (q : string) :
  Chat.is_ubuntu_question q = true -> App.is_ubuntu_question q = true.
Proof.
  unfold Chat.is_ubuntu_question, App.is_ubuntu_question.
  apply InfixFacts.existsb_contains_incl. intros w Hw. hint_in_list.
Qed.

Lemma tech_signal_hints (text : string) :
  FilterPairs.has_tech_signal text
  = existsb (fun w => PyStr.contains w (PyStr.lower text))
      FilterPairs.TECH_HINTS.
Proof.
  unfold FilterPairs.has_tech_signal.
  set (t := PyStr.lower text).
  destruct (existsb (fun w => PyStr.contains w t) FilterPairs.TECH_HINTS)
    eqn:Hany; [done|]. simpl.
  assert (forall h rest, In h FilterPairs.TECH_HINTS ->
            PyStr.contains (h +:+ rest) t = false) as Hno.
  { intros h rest Hh. destruct (PyStr.contains (h +:+ rest) t) eqn:Hc; [|done].
    apply InfixFacts.contains_shorter in Hc.
    assert (existsb (fun w => PyStr.contains w t) FilterPairs.TECH_HINTS = true)
      as Habs by (apply existsb_exists; by exists h).
    congruence. }
  assert (PyStr.contains "sudo " t = false) as ->
    by (apply (Hno "sudo" " "); simpl; tauto).
  assert (PyStr.contains "apt " t = false) as ->
    by (apply (Hno "apt" " "); simpl; tauto).
  assert (PyStr.contains "error" t = false) as ->
    by (apply (Hno "error" ""); simpl; tauto).
  done.
Qed.

(** X3: a query that the gate of chat.py lets through passes the gate of
    app.py, whose list of hints is longer. *)
Theorem app_gate_accepts_chat_gate (q : string) :
  Chat.is_ubuntu_question q = true -> App.is_ubuntu_question q = true.
Proof. apply chat_hint_is_app_hint. Qed.

Lemma app_gate_accepts_chat_gate_witness :
  App.is_ubuntu_question "WiFi not working after update" = true.
Proof. apply app_gate_accepts_chat_gate. reflexivity. Defined.

(** X4: in [has_tech_signal] the three tests after the list add nothing:
    "sudo ", "apt " and "error" are found only where the hints "sudo",
    "apt" and "error" of the list are found. *)
Theorem has_tech_signal_is_hint_test (text : string) :
  FilterPairs.has_tech_signal text
  = existsb (fun w => PyStr.contains w (PyStr.lower text))
      FilterPairs.TECH_HINTS.
Proof. apply tech_signal_hints. Qed.

(** X5: a text in which the corpus filter finds a technical hint passes
    the intent gate of both surfaces. *)
Theorem tech_signal_passes_gate (text : string) :
  FilterPairs.has_tech_signal text = true ->
  Chat.is_ubuntu_question text = true /\ App.is_ubuntu_question text = true.
Proof.
  rewrite tech_signal_hints. intros Htech.
  assert (Chat.is_ubuntu_question text = true) as Hchat.
  { apply existsb_exists in Htech as (w & Hw & Hc).
    assert (exists h, In h Chat.UBUNTU_INTENT_HINTS /\
              PyStr.contains h (PyStr.lower text) = true /\
              PyStr.first_nonspace h = true /\ PyStr.last_nonspace h = true)
      as (h & Hh & Hch & Hfirst & Hlast).
    { simpl in Hw.
      repeat (destruct Hw as [<-|Hw];
              [first [ exists "driver"; split; [simpl; tauto|];
                       split; [by apply (InfixFacts.contains_shorter _ "s")|];
                       by split
                     | match type of Hc with
                       | PyStr.contains ?w _ = true => exists w
                       end;
                       split; [simpl; tauto|]; split; [exact Hc|]; by split ]
              |]).
      destruct Hw. }
    apply existsb_exists. exists h. split; [done|].
    by apply InfixFacts.contains_strip. }
  split; [done | by apply chat_hint_is_app_hint].
Qed.

Lemma tech_signal_passes_gate_witness :
  Chat.is_ubuntu_question "My NVIDIA drivers crash" = true /\
  App.is_ubuntu_question "My NVIDIA drivers crash" = true.
Proof. apply tech_signal_passes_gate. reflexivity. Defined.

(** *** The command-line loop *)

Module ChatLoop.
Import PyStr Chat.




Lemma main_loop_not_continue search lines : forall w,
  (main_loop search lines w).1 <> Continue.
Proof.
  induction lines as [|line lines IH]; intros w; simpl; [done|].
  destruct (main_turn search line w) as [[| |exn] w']; simpl; [done| |done].
  apply IH.
Qed.
End ChatLoop.



(** X8: a query that fails the intent gate is answered with the fixed
    out-of-domain message; neither surface searches, reranks or formats
    for it. *)
Theorem out_of_domain_not_searched `{Py.Str.UnicodeData}
    (search : Py.Str.str -> list Py.result) (line : Py.Str.str) :
  Py.Str.blank line = false ->
  (forall w,
     Py.Str.lower (Py.Str.strip line) <> Py.Str.lit "exit" ->
     Py.Str.lower (Py.Str.strip line) <> Py.Str.lit "quit" ->
     Py.ChatPy.is_ubuntu_question (Py.Str.strip line) = false ->
     Py.ChatPy.main_turn search line w
     = (Chat.Continue, Py.ChatPy.print Py.ChatPy.OUT_OF_DOMAIN w)) /\
  (forall w,
     Py.AppPy.is_ubuntu_question line = false ->
     Py.AppPy.send search line w
     = (App.Rerun,
        Py.AppPy.append_message (App.bot, Py.AppPy.OUT_OF_DOMAIN)
          (Py.AppPy.append_message (App.user, Py.Str.strip line) w))).
Proof.
  intros Hb. split.
  - intros w Hexit Hquit Hdom. by apply TurnFacts.chat_turn_out_of_domain.
  - intros w Hdom. by apply TurnFacts.app_send_out_of_domain.
Qed.

Lemma out_of_domain_not_searched_witness :
  let search :=
    fun _ : Py.Str.str => [Py.PyData.candidate 0.5 "sudo apt-get update"] in
  let line := Py.Str.lit "où est la gare ?" ++ [Py.PyData.NBSP] in
  Py.ChatPy.main_turn (H := Py.Latin1.tables) search line
    (Py.ChatPy.mkWorld [] [])
  = (Chat.Continue, Py.ChatPy.mkWorld Py.ChatPy.OUT_OF_DOMAIN []) /\
  Py.AppPy.send (H := Py.Latin1.tables) search line (Py.AppPy.mkWorld [] [])
  = (App.Rerun,
     Py.AppPy.mkWorld
       [(App.user, Py.Str.lit "où est la gare ?");
        (App.bot, Py.AppPy.OUT_OF_DOMAIN)] []).
Proof.
  intros search line.
  destruct (out_of_domain_not_searched (H := Py.Latin1.tables) search line)
    as [Hchat Happ]; [reflexivity|].
  split.
  - apply Hchat; [by vm_compute | by vm_compute | reflexivity].
  - apply Happ. reflexivity.
Defined.



(** X10: the loop of chat.py never ends with [Continue], and once it has
    ended at [exit] or at a [TypeError] the lines typed after that are not
    read: more input does not change the result. *)
Theorem main_loop_stops (search : string -> list result)
    (lines : list string) (w : Chat.world) :
  (Chat.main_loop search lines w).1 <> Chat.Continue /\
  forall c w',
    Chat.main_loop search lines w = (c, w') ->
    c = Chat.Break \/ c = Chat.Raise "TypeError" ->
    forall more, Chat.main_loop search (lines ++ more) w = (c, w').
Proof.
  split; [apply ChatLoop.main_loop_not_continue|].
  revert w. induction lines as [|line lines IH]; intros w c w' Hrun Hc more.
  - simpl in Hrun. injection Hrun as <- <-. by destruct Hc.
  - simpl in *.
    destruct (Chat.main_turn search line w) as [[| |exn] w1]; [done| |done].
    by apply IH.
Qed.

Lemma main_loop_stops_witness :
  let search := fun _ : string => @nil result in
  Chat.main_loop search (["  "; " Quit "] ++ ["apt is broken"])
    (Chat.mkWorld [] [])
  = (Chat.Break, Chat.mkWorld [] []).
Proof.
  intros search.
  destruct (main_loop_stops search ["  "; " Quit "] (Chat.mkWorld [] []))
    as [_ Hstop].
  apply Hstop; [reflexivity | by left].
Defined.



(** *** The transcript of app.py *)

Module AppPageFacts.
Import App AppPage.




End AppPageFacts.



(** *** The commands of an answer *)

Module ExtractMore.
Import PyStr Extract ExtractPart.

(** What the body of the loop appends does not depend on the list. *)
Lemma collect_part_app commands p :
  collect_part commands p = commands ++ collect_part [] p.
Proof.
  unfold collect_part. destruct (is_empty (strip p)); [by rewrite app_nil_r|].
  destruct (existsb _ cmd_keywords); [|by rewrite app_nil_r].
  destruct (5 <=? _)%nat; [done | by rewrite app_nil_r].
Qed.

Lemma fold_collect_part parts : forall commands,
  fold_left collect_part parts commands
  = commands ++ concat (map (collect_part []) parts).
Proof.
  induction parts as [|p parts IH]; intros commands; simpl.
  - by rewrite app_nil_r.
  - rewrite IH, collect_part_app. by rewrite <- app_assoc.
Qed.

Lemma collect_part_elem p c :
  c ∈ collect_part [] p ->
  c = command_of p /\
  (5 <= len c)%nat /\
  existsb (fun k => contains k (lower (strip p))) cmd_keywords = true.
Proof.
  unfold collect_part, command_of.
  destruct (is_empty (strip p)); [by intros ?%elem_of_nil|].
  destruct (existsb _ cmd_keywords); [|by intros ?%elem_of_nil].
  destruct (5 <=? _)%nat eqn:Hlen; [|by intros ?%elem_of_nil].
  intros ->%list_elem_of_singleton. apply Nat.leb_le in Hlen. done.
Qed.

Lemma collect_elem t c :
  c ∈ collect t ->
  (c = "sudo reboot" /\ contains "reboot" (lower t) = true) \/
  exists p, p ∈ Re.split SPLIT_RE t /\ c ∈ collect_part [] p.
Proof.
  unfold collect. rewrite fold_collect_part. simpl.
  intros Hc.
  assert (c ∈ concat (map (collect_part []) (Re.split SPLIT_RE t)) \/
          (c = "sudo reboot" /\ contains "reboot" (lower t) = true))
    as Hcases.
  { destruct (contains "reboot" (lower t)); [|by left].
    apply elem_of_app in Hc as [?|Hc]; [by left|].
    apply list_elem_of_singleton in Hc as ->. by right. }
  destruct Hcases as [Hin|?]; [|by left].
  right. apply list_elem_of_In, in_concat in Hin as (l & Hl & Hcl).
  apply in_map_iff in Hl as (p & <- & Hp).
  exists p. by rewrite !list_elem_of_In.
Qed.

Lemma collect_reboot t :
  contains "reboot" (lower t) = true -> "sudo reboot" ∈ collect t.
Proof.
  intros Hr. unfold collect. rewrite Hr. apply elem_of_app. right. left.
Qed.

Lemma extract_commands_elem text c :
  c ∈ extract_commands text -> c ∈ collect (strip text).
Proof.
  rewrite ExtractFacts.extract_commands_eq.
  intros (i & Hi & _)%elem_of_take.
  apply ExtractFacts.unique_of_elem. by eapply list_elem_of_lookup_2.
Qed.

Lemma lower_sudo p : lower ("sudo " +:+ p) = "sudo " +:+ lower p.
Proof. by rewrite ReFacts.lower_app. Qed.

Lemma command_of_not_apt p :
  startswith "apt-get" (lower (command_of p)) = false /\
  startswith "apt " (lower (command_of p)) = false.
Proof.
  unfold command_of.
  destruct (startswith "apt-get" (lower _) || startswith "apt " (lower _))
    eqn:Hapt.
  - by rewrite lower_sudo.
  - by apply orb_false_iff in Hapt.
Qed.
End ExtractMore.

(** X13: a blank text holds no command. *)
Theorem extract_commands_blank (s : surface) (text : string) :
  PyStr.blank text = true -> extract_commands_of s text = [].
Proof.
  intros Hb.
  assert (extract_commands_of s text = Extract.extract_commands text) as ->
    by (by destruct s).
  rewrite ExtractFacts.extract_commands_eq.
  by rewrite PyStrFacts.strip_blank.
Qed.

Lemma extract_commands_blank_witness :
  extract_commands_of Web "     " = [].
Proof. apply extract_commands_blank. reflexivity. Defined.

(** X14: every command returned has at least 5 characters and does not
    begin, in any letter case, with "apt-get" or "apt ": where a part of
    the text begins so, "sudo " stands in front of it. *)
Theorem extract_commands_privileged (s : surface) (text c : string) :
  c ∈ extract_commands_of s text ->
  (5 <= PyStr.len c)%nat /\
  PyStr.startswith "apt-get" (PyStr.lower c) = false /\
  PyStr.startswith "apt " (PyStr.lower c) = false.
Proof.
  assert (extract_commands_of s text = Extract.extract_commands text) as ->
    by (by destruct s).
  intros Hc%ExtractMore.extract_commands_elem.
  apply ExtractMore.collect_elem in Hc as [[-> _]|(p & _ & Hc)].
  { split; [simpl; lia | by split]. }
  apply ExtractMore.collect_part_elem in Hc as (-> & Hlen & _).
  split; [done | apply ExtractMore.command_of_not_apt].
Qed.

Lemma extract_commands_privileged_witness :
  (5 <= PyStr.len "sudo APT install vlc")%nat /\
  PyStr.startswith "apt-get" (PyStr.lower "sudo APT install vlc") = false /\
  PyStr.startswith "apt " (PyStr.lower "sudo APT install vlc") = false.
Proof.
  apply (extract_commands_privileged CommandLine
           "Run APT install vlc, then reboot").
  vm_compute. left.
Defined.

(** X15: when the text mentions "reboot" in any letter case, the command
    "sudo reboot" is returned, unless eight other commands come before
    it. *)
Theorem extract_commands_reboot (s : surface) (text : string) :
  PyStr.contains "reboot" (PyStr.lower text) = true ->
  "sudo reboot" ∈ extract_commands_of s text \/
  length (extract_commands_of s text) = 8%nat.
Proof.
  intros Hr.
  assert (extract_commands_of s text = Extract.extract_commands text) as ->
    by (by destruct s).
  rewrite ExtractFacts.extract_commands_eq.
  set (unique := Extract.unique_of (Extract.collect (PyStr.strip text))).
  assert ("sudo reboot" ∈ unique) as Hin.
  { apply ExtractFacts.unique_of_elem, ExtractMore.collect_reboot.
    rewrite PyStrMore.lower_strip_comm. by apply InfixFacts.contains_strip. }
  destruct (decide (length unique <= 8)%nat) as [Hle|Hgt].
  - left. by rewrite take_ge.
  - right. rewrite length_take. lia.
Qed.

Lemma extract_commands_reboot_witness :
  "sudo reboot" ∈ extract_commands_of Web "Then REBOOT the box" \/
  length (extract_commands_of Web "Then REBOOT the box") = 8%nat.
Proof. apply extract_commands_reboot. reflexivity. Defined.

(** *** The leading "run" *)

Module RunFacts.
Import PyStr Re Extract ExtractPart PyStrFacts.

Abbreviation accept := (fun (_ : option ascii) (rest : string) => Some rest).

(** [run\s+] with the final continuation. *)
Abbreviation run_then :=
  (fun (p : option ascii) (s : string) =>
     rmatch true (RSeq (RLit "run") (RPlus CSpace)) p s accept).

Lemma rep_space_accept s : forall prev,
  rep CSpace accept prev s = Some (lstrip s).
Proof.
  induction s as [|a s IH]; intros prev; simpl; [done|].
  destruct (is_space a); [|done]. by rewrite IH.
Qed.

Lemma run_then_space p a t : is_space a = true -> run_then p (String a t) = None.
Proof.
  intros Ha. simpl. unfold char_eq.
  rewrite bool_decide_eq_false_2; [done|].
  by destruct a as [[] [] [] [] [] [] [] []].
Qed.

Lemma run_then_prev p q s : run_then p s = run_then q s.
Proof. by destruct s. Qed.

Lemma rep_space_run s : forall prev,
  rep CSpace run_then prev s = run_then None (lstrip s).
Proof.
  induction s as [|a s IH]; intros prev; [done|].
  cbn [rep lstrip in_class]. destruct (is_space a) eqn:Ha.
  - rewrite IH. destruct (run_then None (lstrip s)); [done|].
    by apply run_then_space.
  - apply run_then_prev.
Qed.

Lemma match_run_start s : match_at true RUN_RE None s = run_rest s.
Proof.
  unfold match_at, RUN_RE. cbn [rmatch]. rewrite rep_space_run.
  unfold run_rest. cbn [rmatch match_lit].
  destruct (lstrip s) as [|r t1]; [done|].
  destruct (char_eq true "r" r); [|by destruct t1 as [|? [|? [|? ?]]]].
  destruct t1 as [|u t2]; [done|].
  destruct (char_eq true "u" u); [|by destruct t2 as [|? [|? ?]]].
  destruct t2 as [|n t3]; [done|].
  destruct (char_eq true "n" n); [|by destruct t3].
  destruct t3 as [|sp t]; [done|]. cbn [in_class andb].
  destruct (is_space sp); [|done]. apply rep_space_accept.
Qed.

Lemma match_run_later c s : match_at true RUN_RE (Some c) s = None.
Proof. done. Qed.

Lemma delete_run_later s : forall c,
  delete_from true RUN_RE (Some c) s 0 = s.
Proof.
  induction s as [|a s IH]; intros c; [done|].
  cbn [delete_from]. rewrite match_run_later. by rewrite IH.
Qed.

Lemma delete_run_skip pre rest : forall c,
  delete_from true RUN_RE (Some c) (pre +:+ rest) (len pre) = rest.
Proof.
  induction pre as [|b pre IH]; intros c.
  - apply delete_run_later.
  - app_step. cbn [len delete_from]. apply IH.
Qed.

Lemma len_app a b : len (a +:+ b) = (len a + len b)%nat.
Proof. induction a as [|x a IH]; [done|]. app_step. simpl. by rewrite IH. Qed.

Lemma run_rest_suffix s rest :
  run_rest s = Some rest -> exists a pre, s = String a pre +:+ rest.
Proof.
  unfold run_rest. destruct (InfixFacts.lstrip_suffix s) as [pre0 Hs].
  destruct (lstrip s) as [|r [|u [|n [|sp t]]]]; try done.
  destruct (_ && _); [|done]. intros [= <-].
  destruct (InfixFacts.lstrip_suffix t) as [pre1 Ht].
  assert (s = (pre0 +:+ String r (String u (String n (String sp pre1))))
              +:+ lstrip t) as ->.
  { rewrite app_assoc. rewrite Hs at 1. f_equal. app_step.
    do 4 f_equal. done. }
  destruct pre0 as [|a pre0]; eexists _, _; reflexivity.
Qed.

(** [re.sub(r"^\s*run\s+", "", s, flags=re.IGNORECASE)] removes the
    leading "run", once. *)
Lemma delete_run_rest s :
  Re.delete true RUN_RE s
  = match run_rest s with Some rest => rest | None => s end.
Proof.
  unfold Re.delete. destruct s as [|a s]; [done|].
  cbn [delete_from]. rewrite match_run_start.
  destruct (run_rest (String a s)) as [rest|] eqn:Hrun.
  - apply run_rest_suffix in Hrun as (a' & pre & Hs).
    change (String a' pre +:+ rest) with (String a' (pre +:+ rest)) in Hs.
    injection Hs as <- ->.
    unfold consumed. cbn [len]. rewrite len_app.
    replace (S (len pre + len rest) - len rest)%nat with (S (len pre)) by lia.
    apply delete_run_skip.
  - by rewrite delete_run_later.
Qed.

Lemma last_nonspace_suffix pre rest :
  last_nonspace (pre +:+ rest) = true -> rest <> "" ->
  last_nonspace rest = true.
Proof.
  intros Hlast Hrest. induction pre as [|a pre IH]; [done|].
  apply IH. revert Hlast. app_step. simpl.
  destruct (pre +:+ rest) eqn:Hpr; [|done].
  destruct pre; [by destruct rest | done].
Qed.

Lemma last_nonspace_app pre s :
  s <> "" -> last_nonspace (pre +:+ s) = last_nonspace s.
Proof.
  intros Hs. induction pre as [|a pre IH]; [done|]. app_step. simpl.
  rewrite IH. destruct (pre +:+ s) eqn:Hpr; [|done].
  destruct pre; [by destruct s | done].
Qed.

(** Without its leading "run" a trimmed text is still trimmed. *)
Lemma delete_run_shape s :
  s = "" \/ (first_nonspace s = true /\ last_nonspace s = true) ->
  let s1 := Re.delete true RUN_RE s in
  s1 = "" \/ (first_nonspace s1 = true /\ last_nonspace s1 = true).
Proof.
  intros Hs. cbv zeta. rewrite delete_run_rest.
  destruct (run_rest s) as [rest|] eqn:Hrun; [|done].
  destruct rest as [|a rest]; [by left|]. right.
  pose proof Hrun as (a' & pre & Hpre)%run_rest_suffix.
  split.
  - unfold run_rest in Hrun.
    destruct (lstrip s) as [|r [|u [|n [|sp t]]]]; try done.
    destruct (_ && _); [|done]. injection Hrun as Hrun.
    destruct (PyStrMore.lstrip_first t) as [Ht|Ht]; by rewrite Hrun in Ht.
  - destruct Hs as [->|[_ Hlast]]; [done|].
    rewrite Hpre in Hlast. by eapply last_nonspace_suffix.
Qed.

Lemma command_of_trimmed p :
  command_of p <> "" -> strip (command_of p) = command_of p.
Proof.
  unfold command_of. set (p1 := Re.delete true RUN_RE (strip p)).
  pose proof (delete_run_shape (strip p) (PyStrMore.strip_shape p)) as Hshape.
  cbv zeta in Hshape. fold p1 in Hshape.
  destruct (startswith "apt-get" (lower p1) || startswith "apt " (lower p1))
    eqn:Hapt.
  - intros _. destruct Hshape as [Hp1|[_ Hlast]];
      [by rewrite Hp1 in Hapt|].
    apply PyStrMore.strip_fixed. right. split; [done|].
    rewrite last_nonspace_app; [done|]. by apply ReFacts.last_nonspace_nonempty.
  - intros Hne. apply PyStrMore.strip_fixed. by destruct Hshape; [left|right].
Qed.
End RunFacts.






(** X17: every command returned is trimmed: it has no white space at
    its start or its end. *)
Theorem extract_commands_trimmed (s : surface) (text c : string) :
  c ∈ extract_commands_of s text -> PyStr.strip c = c.
Proof.
  assert (extract_commands_of s text = Extract.extract_commands text) as ->
    by (by destruct s).
  intros Hc%ExtractMore.extract_commands_elem.
  apply ExtractMore.collect_elem in Hc as [[-> _]|(p & _ & Hc)]; [done|].
  apply ExtractMore.collect_part_elem in Hc as (-> & Hlen & _).
  apply RunFacts.command_of_trimmed. intros Hempty.
  rewrite Hempty in Hlen. simpl in Hlen. lia.
Qed.

Lemma extract_commands_trimmed_witness :
  PyStr.strip "sudo apt install vlc" = "sudo apt install vlc".
Proof.
  apply (extract_commands_trimmed Web
           "  run   apt install vlc  ,   and enjoy").
  vm_compute. left.
Defined.

(** *** The block of commands in the response *)

Section FormatMore.
Variables HEAD STEP1 STEP2 STEP3 : string.


End FormatMore.



(** *** The best candidate and the ranking *)

Section RankingFacts.
Variable quality : string -> Q.







End RankingFacts.




(** *** Retrieval *)

Module RetrievalFacts.
Import Retrieval.

(** The place in the list that a Python index names. *)
Lemma getitem_Some {A : Type} (l : list A) (i : Z) (x : A) :
  getitem l i = Some x <->
  ((0 <= i)%Z /\ l !! Z.to_nat i = Some x) \/
  ((- Z.of_nat (length l) <= i < 0)%Z /\
   l !! Z.to_nat (Z.of_nat (length l) + i) = Some x).
Proof.
  unfold getitem. destruct (0 <=? i)%Z eqn:Hpos.
  - apply Z.leb_le in Hpos. split; [by left|]. intros [[_ ?]|[? _]]; [done|lia].
  - apply Z.leb_gt in Hpos.
    destruct (- Z.of_nat (length l) <=? i)%Z eqn:Hneg.
    + apply Z.leb_le in Hneg. split; [by right|].
      intros [[? _]|[_ ?]]; [lia|done].
    + apply Z.leb_gt in Hneg. split; [done|]. intros [[? _]|[? _]]; lia.
Qed.

Lemma getitem_is_Some {A : Type} (l : list A) (i : Z) :
  is_Some (getitem l i) <->
  (- Z.of_nat (length l) <= i < Z.of_nat (length l))%Z.
Proof.
  unfold getitem. destruct (0 <=? i)%Z eqn:Hpos.
  - apply Z.leb_le in Hpos. rewrite lookup_lt_is_Some. lia.
  - apply Z.leb_gt in Hpos.
    destruct (- Z.of_nat (length l) <=? i)%Z eqn:Hneg.
    + apply Z.leb_le in Hneg. rewrite lookup_lt_is_Some. lia.
    + apply Z.leb_gt in Hneg. split; [by intros [? ?]|lia].
Qed.

Lemma getitem_last {A : Type} (l : list A) : getitem l (-1) = last l.
Proof.
  unfold getitem. simpl (0 <=? -1)%Z. cbv iota.
  destruct l as [|x l]; [done|].
  replace (- Z.of_nat (length (x :: l)) <=? -1)%Z with true
    by (symmetry; apply Z.leb_le; simpl length; lia).
  rewrite last_lookup. f_equal. simpl length. lia.
Qed.

Lemma results_of_Forall2 m hits : forall results,
  results_of hits m = Some results <-> Forall2 (hit_result m) hits results.
Proof.
  induction hits as [|[s i] hits IH]; intros results; simpl.
  - split; [by intros [= <-]; constructor | by intros ->%Forall2_nil_inv_l].
  - split.
    + intros Hr. destruct (getitem (queries m) i) as [q|] eqn:Hq; [|done].
      destruct (getitem (answers m) i) as [a|] eqn:Ha; [|done].
      destruct (results_of hits m) as [rs|] eqn:Hrs; [|done].
      simpl in Hr. injection Hr as <-. constructor; [done | by apply IH].
    + intros (r & rs & (Hs & Hq & Ha) & Hrs & ->)%Forall2_cons_inv_l.
      simpl in *. rewrite Hq, Ha. simpl.
      apply IH in Hrs as ->. simpl. by destruct r; simpl in *; subst.
Qed.

Lemma results_of_is_Some m hits :
  length (queries m) = length (answers m) ->
  is_Some (results_of hits m) <->
  Forall (fun h : Q * Z =>
            (- Z.of_nat (length (queries m)) <= h.2
             < Z.of_nat (length (queries m)))%Z) hits.
Proof.
  intros Hlen. induction hits as [|[s i] hits IH]; simpl.
  - split; [constructor | done].
  - rewrite Forall_cons, <- IH, <- (getitem_is_Some (queries m)). simpl.
    assert (is_Some (getitem (answers m) i)
            <-> is_Some (getitem (queries m) i)) as Hqa.
    { by rewrite !getitem_is_Some, Hlen. }
    destruct (getitem (queries m) i) as [q|]; simpl.
    + destruct (getitem (answers m) i) as [a|]; simpl.
      * destruct (results_of hits m); simpl; split; try done.
        -- by intros [_ [? ?]].
      * exfalso. by destruct Hqa as [_ [? ?]].
    + split; [by intros [? ?] | by intros [[? ?] _]].
Qed.
End RetrievalFacts.

(** X21: with the two lists of the metadata of one length N, [search]
    returns without [IndexError] exactly when every id that the index
    gives lies in [-N, N). *)
Theorem search_succeeds_iff (index_search : string -> nat -> list Q * list Z)
    (m : Retrieval.meta) (query : string) (top_k : nat)
    (scores : list Q) (ids : list Z) :
  index_search query top_k = (scores, ids) ->
  length (Retrieval.queries m) = length (Retrieval.answers m) ->
  is_Some (Retrieval.search index_search m query top_k) <->
  Forall (fun h : Q * Z =>
            (- Z.of_nat (length (Retrieval.queries m)) <= h.2
             < Z.of_nat (length (Retrieval.queries m)))%Z)
    (zip scores ids).
Proof.
  intros Hidx Hlen. unfold Retrieval.search. rewrite Hidx.
  by apply RetrievalFacts.results_of_is_Some.
Qed.

Lemma search_succeeds_iff_witness :
  let index_search := fun (_ : string) (_ : nat) => ([0.9; 0.4], [1; -1]%Z) in
  let m := Retrieval.mkMeta ["q0"; "q1"; "q2"] ["a0"; "a1"; "a2"] in
  is_Some (Retrieval.search index_search m "wifi" 2).
Proof.
  intros index_search m.
  apply (search_succeeds_iff index_search m "wifi" 2 [0.9; 0.4] [1; -1]%Z);
    [reflexivity | reflexivity |].
  repeat constructor; simpl; lia.
Defined.

(** X22: the results of [search] stand in the order of the index, as
    many as the shorter of its two rows; the i-th result has the i-th
    score as similarity and the query and the answer that the i-th id
    names.  A negative id counts from the end of the metadata: for the id
    -1, with which FAISS fills the places of missing neighbours, the
    result holds the last answer of the corpus. *)
Theorem search_results_in_order
    (index_search : string -> nat -> list Q * list Z)
    (m : Retrieval.meta) (query : string) (top_k : nat)
    (scores : list Q) (ids : list Z) (results : list result) :
  index_search query top_k = (scores, ids) ->
  Retrieval.search index_search m query top_k = Some results ->
  length results = Nat.min (length scores) (length ids) /\
  forall (i : nat) s idx,
    scores !! i = Some s -> ids !! i = Some idx ->
    exists r,
      results !! i = Some r /\ sim r = s /\
      Retrieval.getitem (Retrieval.queries m) idx = Some (matched_query r) /\
      Retrieval.getitem (Retrieval.answers m) idx = Some (answer r) /\
      (idx = (-1)%Z -> last (Retrieval.answers m) = Some (answer r)).
Proof.
  intros Hidx Hsearch. unfold Retrieval.search in Hsearch. rewrite Hidx in Hsearch.
  apply RetrievalFacts.results_of_Forall2 in Hsearch.
  split.
  - rewrite <- (Forall2_length _ _ _ Hsearch). apply length_zip.
  - intros i s idx Hs Hi.
    assert (zip scores ids !! i = Some (s, idx)) as Hzip.
    { apply lookup_zip_with_Some. by exists s, idx. }
    destruct (Forall2_lookup_l _ _ _ _ _ Hsearch Hzip) as (r & Hr & Hs' & Hq & Ha).
    exists r. split; [done|]. split; [done|]. split; [done|]. split; [done|].
    intros ->. by rewrite <- RetrievalFacts.getitem_last.
Qed.

Lemma search_results_in_order_witness :
  let index_search := fun (_ : string) (_ : nat) => ([0.9; 0.4], [1; -1]%Z) in
  let m := Retrieval.mkMeta ["q0"; "q1"; "q2"] ["a0"; "a1"; "a2"] in
  let results := [mkResult 0.9 "q1" "a1"; mkResult 0.4 "q2" "a2"] in
  length results = Nat.min (length [0.9; 0.4]) (length [1; -1]%Z) /\
  forall (i : nat) s idx,
    [0.9; 0.4] !! i = Some s -> [1; -1]%Z !! i = Some idx ->
    exists r,
      results !! i = Some r /\ sim r = s /\
      Retrieval.getitem (Retrieval.queries m) idx = Some (matched_query r) /\
      Retrieval.getitem (Retrieval.answers m) idx = Some (answer r) /\
      (idx = (-1)%Z -> last (Retrieval.answers m) = Some (answer r)).
Proof.
  intros index_search m results.
  apply (search_results_in_order index_search m "wifi" 2
           [0.9; 0.4] [1; -1]%Z results); reflexivity.
Defined.

(** *** Runs of white space *)

Module SqueezeFacts.
Import PyStr Re ReSub PyStrFacts.

Lemma match_space prev s :
  match_at false (RPlus CSpace) prev s
  = match s with
    | String a s' => if is_space a then Some (lstrip s') else None
    | EmptyString => None
    end.
Proof.
  unfold match_at. destruct s as [|a s]; [done|]. simpl.
  destruct (is_space a); [|done]. apply RunFacts.rep_space_accept.
Qed.

Lemma len_lstrip s : (len (lstrip s) <= len s)%nat.
Proof.
  induction s as [|a s IH]; simpl; [done|].
  destruct (is_space a); simpl; lia.
Qed.

(** The substitution meets [squeeze]: outside a run with no character to
    skip, inside a run with the rest of the run to skip. *)
Lemma sub_from_squeeze s : forall prev,
  sub_from false (RPlus CSpace) " " prev s 0 = squeeze false s /\
  sub_from false (RPlus CSpace) " " prev s (len s - len (lstrip s))
  = squeeze true s.
Proof.
  induction s as [|a s IH]; intros prev; [done|].
  assert (sub_from false (RPlus CSpace) " " prev (String a s) 0
          = squeeze false (String a s)) as Hout.
  { cbn [sub_from squeeze]. rewrite match_space.
    destruct (is_space a).
    - unfold consumed. cbn [len]. pose proof (len_lstrip s).
      replace (S (len s) - len (lstrip s))%nat
        with (S (len s - len (lstrip s))) by lia.
      by destruct (IH (Some a)) as [_ ->].
    - by destruct (IH (Some a)) as [-> _]. }
  split; [done|]. cbn [lstrip squeeze]. destruct (is_space a) eqn:Ha.
  - cbn [len]. pose proof (len_lstrip s).
    replace (S (len s) - len (lstrip s))%nat
      with (S (len s - len (lstrip s))) by lia.
    cbn [sub_from]. by destruct (IH (Some a)) as [_ ->].
  - rewrite Nat.sub_diag, Hout. cbn [squeeze]. by rewrite Ha.
Qed.

Lemma collapse_squeeze s : collapse_spaces s = squeeze false s.
Proof.
  unfold collapse_spaces, sub. by destruct (sub_from_squeeze s None) as [-> _].
Qed.

Lemma single_spaced_squeeze s : forall b,
  single_spaced b (squeeze b s) = true.
Proof.
  induction s as [|a s IH]; intros b; [done|]. simpl.
  destruct (is_space a) eqn:Ha.
  - destruct b; [apply IH|]. simpl. apply IH.
  - simpl. rewrite Ha. apply IH.
Qed.

Lemma single_spaced_weaken s : forall b,
  single_spaced b s = true -> single_spaced false s = true.
Proof.
  destruct s as [|a s]; intros b; [done|]. simpl.
  destruct (is_space a); [|done].
  intros [[-> _]%andb_true_iff ->]%andb_true_iff. done.
Qed.

Lemma squeeze_fixed s : forall b,
  single_spaced b s = true -> squeeze b s = s.
Proof.
  induction s as [|a s IH]; intros b; [done|]. simpl.
  destruct (is_space a).
  - intros [[Ha Hb]%andb_true_iff Hs]%andb_true_iff.
    apply bool_decide_eq_true in Ha as ->. apply negb_true_iff in Hb as ->.
    by rewrite IH.
  - intros Hs. by rewrite IH.
Qed.

Lemma last_nonspace_squeeze s : forall b,
  last_nonspace s = true -> last_nonspace (squeeze b s) = true.
Proof.
  induction s as [|a s IH]; intros b Hlast; [done|].
  assert (s = "" \/ last_nonspace s = true) as [->|Hs].
  { destruct s; [by left | by right]. }
  - simpl in *. apply negb_true_iff in Hlast. rewrite Hlast. simpl.
    by rewrite Hlast.
  - assert (forall b' x, last_nonspace (String x (squeeze b' s)) = true)
      as Hcons.
    { intros b' x. specialize (IH b' Hs). simpl.
      by destruct (squeeze b' s). }
    cbn [squeeze]. destruct (is_space a); [destruct b|];
      [by apply IH | apply Hcons | apply Hcons].
Qed.

Lemma first_nonspace_squeeze s :
  first_nonspace s = true -> first_nonspace (squeeze false s) = true.
Proof.
  destruct s as [|a s]; [done|]. simpl. intros Ha.
  apply negb_true_iff in Ha. rewrite Ha. simpl. by rewrite Ha.
Qed.

Lemma single_spaced_first s :
  first_nonspace s = true -> single_spaced true s = single_spaced false s.
Proof.
  destruct s as [|a s]; [done|]. simpl. by intros ->%negb_true_iff.
Qed.

Lemma tidy_shape s :
  tidy s = true ->
  single_spaced false s = true /\
  (s = "" \/ (first_nonspace s = true /\ last_nonspace s = true)).
Proof.
  unfold tidy. intros [Hs Hend]%andb_true_iff.
  split; [by eapply single_spaced_weaken|].
  destruct s as [|a s]; [by left|]. right. simpl in Hend. split; [|done].
  simpl in *. destruct (is_space a); [|done].
  by rewrite andb_false_r in Hs.
Qed.

Lemma shape_tidy s :
  single_spaced false s = true ->
  s = "" \/ (first_nonspace s = true /\ last_nonspace s = true) ->
  tidy s = true.
Proof.
  intros Hs [->|[Hfirst Hlast]]; [done|]. unfold tidy.
  rewrite single_spaced_first, Hs, Hlast by done. apply orb_true_r.
Qed.

Lemma squeeze_strip_tidy s : tidy (squeeze false (strip s)) = true.
Proof.
  apply shape_tidy; [apply single_spaced_squeeze|].
  destruct (PyStrMore.strip_shape s) as [->|[Hfirst Hlast]]; [by left|].
  right. split; [by apply first_nonspace_squeeze|].
  by apply last_nonspace_squeeze.
Qed.

Lemma tidy_squeeze_strip s : tidy s = true -> squeeze false (strip s) = s.
Proof.
  intros [Hs Hshape]%tidy_shape.
  rewrite PyStrMore.strip_fixed by done. by apply squeeze_fixed.
Qed.

(** Parts of a single-spaced text. *)
Lemma single_spaced_suffix pre rest : forall b,
  single_spaced b (pre +:+ rest) = true -> single_spaced false rest = true.
Proof.
  induction pre as [|a pre IH]; intros b; [apply single_spaced_weaken|].
  app_step. simpl. destruct (is_space a).
  - intros [_ Hs]%andb_true_iff. by eapply IH.
  - apply IH.
Qed.

Lemma single_spaced_lstrip s :
  single_spaced false s = true -> single_spaced true (lstrip s) = true.
Proof.
  induction s as [|a s IH]; [done|]. simpl.
  destruct (is_space a) eqn:Ha.
  - intros [_ Hs]%andb_true_iff. by eapply IH, single_spaced_weaken.
  - intros Hs. simpl. by rewrite Ha.
Qed.

Lemma single_spaced_rstrip s : forall b,
  single_spaced b s = true -> single_spaced b (rstrip s) = true.
Proof.
  induction s as [|a s IH]; intros b; [done|]. simpl.
  destruct (is_space a) eqn:Ha; simpl.
  - intros [Hab Hs]%andb_true_iff.
    destruct (is_empty (rstrip s)); [done|]. simpl.
    rewrite Ha, Hab. by apply IH.
  - intros Hs. rewrite Ha. by apply IH.
Qed.

Lemma strip_tidy s : single_spaced false s = true -> tidy (strip s) = true.
Proof.
  intros Hs. apply shape_tidy; [|apply PyStrMore.strip_shape].
  unfold strip. eapply single_spaced_weaken.
  by apply single_spaced_rstrip, single_spaced_lstrip.
Qed.
End SqueezeFacts.

(** *** The corpus filter *)

Module FilterFacts.
Import PyStr ReSub FilterPairs.

Lemma normalize_squeeze s : normalize s = squeeze false (strip s).
Proof. apply SqueezeFacts.collapse_squeeze. Qed.

Lemma normalize_is_tidy s : tidy (normalize s) = true.
Proof. rewrite normalize_squeeze. apply SqueezeFacts.squeeze_strip_tidy. Qed.

Lemma normalize_of_tidy s : tidy s = true -> normalize s = s.
Proof. rewrite normalize_squeeze. apply SqueezeFacts.tidy_squeeze_strip. Qed.

Lemma strip_of_tidy s : tidy s = true -> strip s = s.
Proof.
  intros [_ Hshape]%SqueezeFacts.tidy_shape. by apply PyStrMore.strip_fixed.
Qed.

(** The test on the share of letters and digits, without the division. *)
Lemma ratio_ge (c n : nat) (p : Z) (q : positive) :
  (0 < n)%nat ->
  Qltb (inject_Z (Z.of_nat c) / inject_Z (Z.of_nat n)) (p # q) = false <->
  (p * Z.of_nat n <= Z.pos q * Z.of_nat c)%Z.
Proof.
  intros Hn. rewrite Qltb_ge. destruct n as [|k]; [lia|].
  unfold Qle, Qdiv, Qmult, Qinv, inject_Z. simpl Qnum. simpl Qden.
  rewrite Z.mul_1_r.
  change (Z.of_nat (S k)) with (Z.pos (Pos.of_succ_nat k)).
  simpl Qnum. simpl Qden. rewrite Pos.mul_1_l. lia.
Qed.

Lemma count_from_positive needle s :
  needle <> "" ->
  (1 <=? count_from needle s 0)%nat = contains needle s.
Proof.
  intros Hne. induction s as [|a s IH].
  - by destruct needle.
  - cbn [count_from contains].
    destruct (startswith needle (String a s)); [done|]. by rewrite IH.
Qed.
End FilterFacts.

(** X23: [normalize] of filter_pairs.py writes a text in a normal form:
    no white space at the ends, and inside only single blanks (U+0020),
    white space being what [str.isspace] accepts.  The texts in this form
    are its fixed points, so normalising twice is normalising once. *)
Theorem normalize_normal_form `{Py.Str.UnicodeData} (s : Py.Str.str) :
  Py.Corpus.tidy (Py.Corpus.normalize s) = true /\
  (Py.Corpus.normalize s = s <-> Py.Corpus.tidy s = true) /\
  Py.Corpus.normalize (Py.Corpus.normalize s) = Py.Corpus.normalize s.
Proof.
  assert (forall t, Py.Corpus.tidy (Py.Corpus.normalize t) = true) as Htidy.
  { intros t. rewrite CorpusFacts.normalize_is_squeeze.
    apply CorpusFacts.squeeze_strip_is_tidy. }
  assert (forall t, Py.Corpus.tidy t = true -> Py.Corpus.normalize t = t)
    as Hfixed.
  { intros t Ht. rewrite CorpusFacts.normalize_is_squeeze.
    by apply CorpusFacts.squeeze_strip_of_tidy. }
  split; [done|]. split.
  - split; [intros <-; apply Htidy | apply Hfixed].
  - apply Hfixed, Htidy.
Qed.

(** *** The corpus builder *)

Module PreprocessFacts.
Import PyStr ReSub Preprocess.

Lemma after_bracket_suffix s : forall rest,
  after_bracket s = Some rest -> exists pre, s = pre +:+ rest.
Proof.
  induction s as [|c s IH]; intros rest; [done|]. simpl.
  case_bool_decide; [intros [= <-]; by exists (String c "")|].
  case_bool_decide; [done|].
  intros (pre & ->)%IH. by exists (String c pre).
Qed.

Lemma drop_tag_single_spaced t :
  single_spaced false t = true -> single_spaced false (drop_tag t) = true.
Proof.
  intros Ht. unfold drop_tag. destruct t as [|c s]; [done|].
  case_bool_decide; [|done].
  destruct (after_bracket s) as [rest|] eqn:Hrest; [|done].
  apply after_bracket_suffix in Hrest as [pre ->].
  eapply SqueezeFacts.single_spaced_weaken, SqueezeFacts.single_spaced_lstrip.
  by apply (SqueezeFacts.single_spaced_suffix (String c pre) rest false).
Qed.

Lemma clean_text_is_tidy cell : tidy (clean_text cell) = true.
Proof.
  destruct cell as [s|]; [|done]. unfold clean_text.
  apply SqueezeFacts.strip_tidy, drop_tag_single_spaced.
  pose proof (FilterFacts.normalize_is_tidy s) as Ht.
  by apply SqueezeFacts.tidy_shape in Ht as [? _].
Qed.

Lemma len_lower s : len (lower s) = len s.
Proof. induction s as [|c s IH]; simpl; [done | by rewrite IH]. Qed.

Lemma bad_short_is_short low : low ∈ BAD_SHORT -> (len low < MIN_LEN_Q)%nat.
Proof.
  unfold BAD_SHORT, MIN_LEN_Q. intros Hlow.
  repeat (apply elem_of_cons in Hlow as [->|Hlow]; [simpl; lia|]).
  by apply elem_of_nil in Hlow.
Qed.

Lemma is_bad_utterance_false s :
  is_bad_utterance s = false <->
  (MIN_LEN_Q <= len (strip (lower s)))%nat /\
  (len (strip (lower s)) <= 2 * count_alnum (strip (lower s)))%nat.
Proof.
  unfold is_bad_utterance. set (low := strip (lower s)).
  destruct (is_empty s) eqn:Hs.
  { destruct s; [|done]. subst low. simpl. unfold MIN_LEN_Q.
    split; [done | lia]. }
  case_bool_decide as Hshort.
  { apply bad_short_is_short in Hshort. split; [done | lia]. }
  destruct (len low <? MIN_LEN_Q)%nat eqn:Hlen.
  { apply Nat.ltb_lt in Hlen. split; [done | lia]. }
  apply Nat.ltb_ge in Hlen. unfold MIN_LEN_Q in *.
  assert (Qltb (alnum_ratio low) 0.5 = false <->
          (len low <= 2 * count_alnum low)%nat) as Hratio.
  { unfold alnum_ratio. rewrite Nat.max_l by lia.
    rewrite (FilterFacts.ratio_ge _ _ 5 10) by lia. lia. }
  destruct (Qltb (alnum_ratio low) 0.5).
  - split; [done|]. intros [_ Hr]. by apply Hratio in Hr.
  - split; [|done]. intros _. split; [done | by apply Hratio].
Qed.



Lemma looks_like_noise_false text :
  FilterPairs.looks_like_noise text = false <->
  contains "http" (lower text) = false /\
  (11 * Nat.max (len (lower text)) 1 <= 20 * count_alnum (lower text))%nat.
Proof.
  unfold FilterPairs.looks_like_noise, FilterPairs.count.
  rewrite FilterFacts.count_from_positive by done.
  destruct (contains "http" (lower text)); [split; [done | by intros [? _]]|].
  assert (Qltb (alnum_ratio (lower text)) 0.55 = false <->
          (11 * Nat.max (len (lower text)) 1
           <= 20 * count_alnum (lower text))%nat) as Hratio.
  { unfold alnum_ratio. rewrite (FilterFacts.ratio_ge _ _ 55 100) by lia. lia. }
  destruct (Qltb (alnum_ratio (lower text)) 0.55).
  - split; [done|]. intros [_ Hr]. by apply Hratio in Hr.
  - split; [|done]. intros _. split; [done | by apply Hratio].
Qed.

(** A cell that the filter keeps passes the test of the builder. *)
Lemma kept_cell_is_good cell lo :
  (MIN_LEN_Q <= lo)%nat ->
  FilterPairs.between lo FilterPairs.MAX_LEN
    (len (FilterPairs.normalize cell)) = true ->
  FilterPairs.looks_like_noise (FilterPairs.normalize cell) = false ->
  is_bad_utterance (FilterPairs.normalize cell) = false.
Proof.
  intros Hlo [Hlen _]%andb_true_iff [_ Hratio]%looks_like_noise_false.
  apply Nat.leb_le in Hlen. apply is_bad_utterance_false.
  rewrite <- PyStrMore.lower_strip_comm.
  rewrite (FilterFacts.strip_of_tidy _ (FilterFacts.normalize_is_tidy cell)).
  rewrite len_lower in *. lia.
Qed.
End PreprocessFacts.

(** X24: what [clean_text] of preprocess.py returns has no white space
    at its ends and only single blanks inside, so the [normalize] of
    filter_pairs.py leaves it as it is; a cell that is not a text gives
    the empty text. *)
Theorem clean_text_normal_form (cell : option string) :
  ReSub.tidy (Preprocess.clean_text cell) = true /\
  FilterPairs.normalize (Preprocess.clean_text cell)
  = Preprocess.clean_text cell /\
  Preprocess.clean_text None = "".
Proof.
  split; [apply PreprocessFacts.clean_text_is_tidy|]. split; [|done].
  apply FilterFacts.normalize_of_tidy, PreprocessFacts.clean_text_is_tidy.
Qed.

(** X25: [is_bad_utterance] accepts a text exactly when, lowercased and
    trimmed, it has at least 8 code points and the share of its letters
    and digits, the double that the division gives, is not below 0.5; the
    test of the empty text and the test against BAD_SHORT never decide,
    all words of BAD_SHORT being shorter than 8. *)
Theorem utterance_accepted `{Py.Str.UnicodeData} (s : Py.Str.str) :
  Py.Corpus.is_bad_utterance s = false <->
  (8 <= Py.Str.len (Py.Str.strip (Py.Str.lower s)))%nat /\
  Py.Float.ltb (Py.Corpus.alnum_ratio (Py.Str.strip (Py.Str.lower s)))
    Py.Float.f0_5 = false.
Proof. apply UtteranceFacts.is_bad_utterance_accepts. Qed.


(** X27: [looks_like_noise] lets a text pass exactly when it holds no
    "http" in any letter case and the share of its letters and digits,
    the double that the division gives, is not below 0.55; the empty text
    is noise. *)
Theorem noise_test `{Py.Str.UnicodeData} (text : Py.Str.str) :
  (Py.Corpus.looks_like_noise text = false <->
   Py.Str.contains (Py.Str.lit "http") (Py.Str.lower text) = false /\
   Py.Float.ltb (Py.Corpus.alnum_ratio (Py.Str.lower text)) Py.Float.f0_55
   = false) /\
  Py.Corpus.looks_like_noise [] = true.
Proof. split; [apply UtteranceFacts.looks_like_noise_passes | done]. Qed.

(** X28: the filter is the stricter test: both cells of a row that the
    masks of filter_pairs.py keep are, once normalised, utterances that
    [is_bad_utterance] of preprocess.py accepts. *)
Theorem kept_row_has_good_utterances (query answer : string) :
  FilterPairs.row_kept query answer = true ->
  Preprocess.is_bad_utterance (FilterPairs.normalize query) = false /\
  Preprocess.is_bad_utterance (FilterPairs.normalize answer) = false.
Proof.
  unfold FilterPairs.row_kept.
  intros [[[[Hq Ha]%andb_true_iff Hnq%negb_true_iff]%andb_true_iff
            Hna%negb_true_iff]%andb_true_iff _]%andb_true_iff.
  split;
    [apply (PreprocessFacts.kept_cell_is_good query FilterPairs.MIN_Q_LEN)
    |apply (PreprocessFacts.kept_cell_is_good answer FilterPairs.MIN_A_LEN)];
    try done;
    unfold Preprocess.MIN_LEN_Q, FilterPairs.MIN_Q_LEN, FilterPairs.MIN_A_LEN;
    lia.
Qed.

Lemma kept_row_has_good_utterances_witness :
  Preprocess.is_bad_utterance
    (FilterPairs.normalize "my  wifi stopped working after the update") = false /\
  Preprocess.is_bad_utterance
    (FilterPairs.normalize " try sudo apt-get update and reboot ") = false.
Proof.
  apply kept_row_has_good_utterances. vm_compute. reflexivity.
Defined.
